(** * InfiniteScroll: the scroll-distance trigger of ionic-angular

    A shallow embedding of
    [dist/ionic-angular/es2015/components/infinite-scroll/infinite-scroll.js]
    and the properties of its threshold arithmetic and of its
    enabled / disabled / loading state machine.

    JavaScript numbers are embedded as the rationals extended with
    [NaN] and the two infinities.  Every finite result is rounded to
    the nearest binary64 value, ties to even, with overflow to the
    infinities and gradual underflow; only the sign of zero is outside
    the model. *)

From Stdlib Require Import ZArith QArith Qreduction Bool List String Ascii Lia.
From Stdlib Require Floats.
Import ListNotations.

Local Open Scope Z_scope.

(** ** JavaScript numbers *)

Module JsNumber.

Inductive number : Type :=
| NaN : number
| PosInf : number
| NegInf : number
| Fin : Q -> number.

(** *** Rounding to binary64

    A binary64 value is [m * 2 ^ e] with [m] below [2 ^ 53] and [e]
    from [-1074] to [971]. *)

(** The floor of the binary logarithm of [n / d]. *)
Definition log2_ratio (n d : positive) : Z :=
  let k := Z.log2 (Zpos n) - Z.log2 (Zpos d) in
  if Zpos d * 2 ^ Z.max 0 k <=? Zpos n * 2 ^ Z.max 0 (- k)
  then k
  else k - 1.

(** [a / b] rounded to the nearest integer, ties to even. *)
Definition nearest_even (a b : Z) : Z :=
  let m := a / b in
  match 2 * (a mod b) ?= b with
  | Lt => m
  | Gt => m + 1
  | Eq => if Z.even m then m else m + 1
  end.

(** The binary64 value nearest to [n / d]: the quotient is cut at the
    exponent [e] of its last place, not below [-1074], and what
    reaches [2 ^ 1024] is infinite. *)
Definition round_pos (n d : positive) : number :=
  let e := Z.max (log2_ratio n d - 52) (-1074) in
  let m := nearest_even (Zpos n * 2 ^ Z.max 0 (- e))
                        (Zpos d * 2 ^ Z.max 0 e) in
  if 2 ^ 1024 * 2 ^ Z.max 0 (- e) <=? m * 2 ^ Z.max 0 e
  then PosInf
  else Fin (Qred (m * 2 ^ Z.max 0 e # Z.to_pos (2 ^ Z.max 0 (- e)))).

Definition round64 (q : Q) : number :=
  match Qnum (Qred q) with
  | Z0 => Fin 0
  | Zpos n => round_pos n (Qden (Qred q))
  | Zneg n =>
      match round_pos n (Qden (Qred q)) with
      | Fin r => Fin (- r)
      | PosInf => NegInf
      | other => other
      end
  end.

(** A finite result of an operation: the exact value, rounded.  The
    rational is kept in lowest terms, so that equal values are equal
    terms whenever both sides were computed. *)
Definition fin (q : Q) : number := round64 q.

(** The value of a primitive binary64 float, to compare the rounding
    above with the arithmetic of the kernel. *)
Definition of_float (f : PrimFloat.float) : number :=
  match FloatOps.Prim2SF f with
  | SpecFloat.S754_zero _ => Fin 0
  | SpecFloat.S754_infinity s => if s then NegInf else PosInf
  | SpecFloat.S754_nan => NaN
  | SpecFloat.S754_finite s m e =>
      let z := if s then Zneg m else Zpos m in
      Fin (Qred (z * 2 ^ Z.max 0 e # Z.to_pos (2 ^ Z.max 0 (- e))))
  end.

(** The primitive float of a small integer. *)
Definition float_of_Z (z : Z) : PrimFloat.float :=
  match z with
  | Z0 => PrimFloat.zero
  | Zpos p => FloatOps.SF2Prim (SpecFloat.S754_finite false p 0)
  | Zneg p => FloatOps.SF2Prim (SpecFloat.S754_finite true p 0)
  end.

(** An integer literal.  Integers below [2 ^ 53] in absolute value
    are binary64 values. *)
Definition of_Z (z : Z) : number := Fin (inject_Z z).

Definition neg (a : number) : number :=
  match a with
  | NaN => NaN
  | PosInf => NegInf
  | NegInf => PosInf
  | Fin x => fin (- x)
  end.

(** [a + b] *)
Definition add (a b : number) : number :=
  match a, b with
  | NaN, _ | _, NaN => NaN
  | PosInf, NegInf | NegInf, PosInf => NaN
  | PosInf, _ | _, PosInf => PosInf
  | NegInf, _ | _, NegInf => NegInf
  | Fin x, Fin y => fin (x + y)
  end.

(** [a - b] *)
Definition sub (a b : number) : number :=
  match a, b with
  | NaN, _ | _, NaN => NaN
  | PosInf, PosInf | NegInf, NegInf => NaN
  | PosInf, _ | _, NegInf => PosInf
  | NegInf, _ | _, PosInf => NegInf
  | Fin x, Fin y => fin (x - y)
  end.

Definition scale_inf (positive : bool) (q : Q) : number :=
  match (q ?= 0)%Q with
  | Eq => NaN
  | Gt => if positive then PosInf else NegInf
  | Lt => if positive then NegInf else PosInf
  end.

(** [a * b] *)
Definition mul (a b : number) : number :=
  match a, b with
  | NaN, _ | _, NaN => NaN
  | PosInf, PosInf | NegInf, NegInf => PosInf
  | PosInf, NegInf | NegInf, PosInf => NegInf
  | PosInf, Fin y | Fin y, PosInf => scale_inf true y
  | NegInf, Fin y | Fin y, NegInf => scale_inf false y
  | Fin x, Fin y => fin (x * y)
  end.

(** [a / b]; a zero divisor is read as [+0]. *)
Definition div (a b : number) : number :=
  match a, b with
  | NaN, _ | _, NaN => NaN
  | (PosInf | NegInf), (PosInf | NegInf) => NaN
  | PosInf, Fin y =>
      match (y ?= 0)%Q with Lt => NegInf | _ => PosInf end
  | NegInf, Fin y =>
      match (y ?= 0)%Q with Lt => PosInf | _ => NegInf end
  | Fin _, (PosInf | NegInf) => Fin 0
  | Fin x, Fin y =>
      if Qeq_bool y 0
      then match (x ?= 0)%Q with
           | Eq => NaN
           | Gt => PosInf
           | Lt => NegInf
           end
      else fin (x / y)
  end.

(** [a < b]: false as soon as one side is [NaN]. *)
Definition lt (a b : number) : bool :=
  match a, b with
  | NaN, _ | _, NaN => false
  | _, NegInf => false
  | NegInf, _ => true
  | PosInf, _ => false
  | Fin _, PosInf => true
  | Fin x, Fin y =>
      match (x ?= y)%Q with Lt => true | _ => false end
  end.

(** [a > b] *)
Definition gt (a b : number) : bool := lt b a.

(** ToBoolean on a number: [0] and [NaN] are falsy. *)
Definition truthy (a : number) : bool :=
  match a with
  | NaN => false
  | PosInf | NegInf => true
  | Fin x => negb (Qeq_bool x 0)
  end.

Definition is_nan (a : number) : bool :=
  match a with NaN => true | _ => false end.

End JsNumber.

Import JsNumber.

Declare Scope js_scope.
Delimit Scope js_scope with js.
Bind Scope js_scope with number.
Infix "+" := add : js_scope.
Infix "-" := sub : js_scope.
Infix "*" := mul : js_scope.
Infix "/" := div : js_scope.
Infix "<?" := lt : js_scope.
Infix ">?" := gt : js_scope.

(** ** Strings: [indexOf] and [parseFloat] *)

Module JsString.

(** [s.indexOf(pat)]: the position of the first occurrence, or [-1]. *)
Definition indexOf (s pat : string) : Z :=
  match String.index 0 pat s with
  | Some i => Z.of_nat i
  | None => -1
  end.

(** StrWhiteSpaceChar among the code units below 256. *)
Definition is_white (c : ascii) : bool :=
  let n := nat_of_ascii c in
  (Nat.eqb n 9 || Nat.eqb n 10 || Nat.eqb n 11 || Nat.eqb n 12
   || Nat.eqb n 13 || Nat.eqb n 32 || Nat.eqb n 160)%bool.

Fixpoint trimStart (s : string) : string :=
  match s with
  | String c r => if is_white c then trimStart r else s
  | EmptyString => s
  end.

Definition digit_of (c : ascii) : option Z :=
  let n := nat_of_ascii c in
  if (Nat.leb 48 n && Nat.leb n 57)%bool
  then Some (Z.of_nat n - 48)
  else None.

(** The longest run of DecimalDigits at the head of [s], most
    significant first, and what follows it. *)
Fixpoint take_digits (s : string) : list Z * string :=
  match s with
  | String c r =>
      match digit_of c with
      | Some d => let (ds, rest) := take_digits r in (d :: ds, rest)
      | None => ([], s)
      end
  | EmptyString => ([], s)
  end.

Definition digits_value (ds : list Z) : Z :=
  fold_left (fun acc d => 10 * acc + d) ds 0.

(** An optional sign: [true] for a leading minus. *)
Definition take_sign (s : string) : bool * string :=
  match s with
  | String "-"%char r => (true, r)
  | String "+"%char r => (false, r)
  | _ => (false, s)
  end.

(** ExponentPart, when one follows: [e] or [E], an optional sign and
    at least one digit.  Anything else leaves the exponent at zero,
    the literal ending before it. *)
Definition take_exponent (s : string) : Z :=
  match s with
  | String c r =>
      if (Ascii.eqb c "e" || Ascii.eqb c "E")%bool
      then
        let (minus, r') := take_sign r in
        match take_digits r' with
        | ([], _) => 0
        | (ds, _) => if minus then - digits_value ds else digits_value ds
        end
      else 0
  | EmptyString => 0
  end.

(** The value of the digits [ip.fp] times ten to the [e]. *)
Definition decimal_value (ip fp : list Z) (e : Z) : Q :=
  inject_Z (digits_value (ip ++ fp))
  * Qpower (10 # 1) (e - Z.of_nat (List.length fp)).

(** StrUnsignedDecimalLiteral: the value of the longest prefix of [s]
    that is one, [NaN] when no prefix is. *)
Definition unsigned_literal (s : string) : number :=
  if String.prefix "Infinity" s then PosInf
  else
    let (ip, r1) := take_digits s in
    match r1 with
    | String "."%char r =>
        let (fp, r2) := take_digits r in
        match ip, fp with
        | [], [] => NaN
        | _, _ => fin (decimal_value ip fp (take_exponent r2))
        end
    | _ =>
        match ip with
        | [] => NaN
        | _ => fin (decimal_value ip [] (take_exponent r1))
        end
    end.

(** The global [parseFloat]: leading white space is skipped, the
    longest prefix that is a StrDecimalLiteral is read, and the rest
    of the string is ignored. *)
Definition parseFloat (s : string) : number :=
  let (minus, r) := take_sign (trimStart s) in
  let v := unsigned_literal r in
  if minus then neg v else v.

End JsString.

Import JsString.

Local Open Scope string_scope.

(** ** The component *)

Inductive State : Type :=
| STATE_ENABLED : State
| STATE_DISABLED : State
| STATE_LOADING : State.

Definition State_eqb (a b : State) : bool :=
  match a, b with
  | STATE_ENABLED, STATE_ENABLED
  | STATE_DISABLED, STATE_DISABLED
  | STATE_LOADING, STATE_LOADING => true
  | _, _ => false
  end.

(** A handle returned by [ionScroll.subscribe]. *)
Definition Subscription : Type := nat.

(** The fields of an [InfiniteScroll] instance.  [_scLsn] is [None]
    while the property is [undefined] or [null]. *)
Record InfiniteScroll : Type := mkInfiniteScroll {
  _lastCheck : number;
  _highestY : number;
  _thr : string;
  _thrPx : number;
  _thrPc : number;
  _init : bool;
  state : State;
  _scLsn : option Subscription
}.

Definition with_lastCheck (v : number) (t : InfiniteScroll) : InfiniteScroll :=
  mkInfiniteScroll v (_highestY t) (_thr t) (_thrPx t) (_thrPc t)
                   (_init t) (state t) (_scLsn t).

Definition with_threshold (thr : string) (px pc : number) (t : InfiniteScroll)
  : InfiniteScroll :=
  mkInfiniteScroll (_lastCheck t) (_highestY t) thr px pc
                   (_init t) (state t) (_scLsn t).

Definition with_init (b : bool) (t : InfiniteScroll) : InfiniteScroll :=
  mkInfiniteScroll (_lastCheck t) (_highestY t) (_thr t) (_thrPx t) (_thrPc t)
                   b (state t) (_scLsn t).

Definition with_state (s : State) (t : InfiniteScroll) : InfiniteScroll :=
  mkInfiniteScroll (_lastCheck t) (_highestY t) (_thr t) (_thrPx t) (_thrPc t)
                   (_init t) s (_scLsn t).

Definition with_scLsn (l : option Subscription) (t : InfiniteScroll)
  : InfiniteScroll :=
  mkInfiniteScroll (_lastCheck t) (_highestY t) (_thr t) (_thrPx t) (_thrPc t)
                   (_init t) (state t) l.

(** The one callback the component hands to [_dom.write]: the closure
    of [_onScroll] that enters the zone, re-reads [state] and emits. *)
Inductive WriteCallback : Type :=
| EmitInfinite : WriteCallback.

(** The instance together with the collaborators it was constructed
    with: the observers this instance holds on [_content.ionScroll],
    the next handle that stream hands out, the FIFO of [_dom.write]
    callbacks not yet run, and how many times [ionInfinite.emit(this)]
    was called.  The class toggled on [_content] by the constructor is
    not tracked. *)
Record World : Type := mkWorld {
  self : InfiniteScroll;
  ionScroll : list Subscription;
  nextSubscription : Subscription;
  domWrites : list WriteCallback;
  ionInfinite : nat
}.

Definition with_self (f : InfiniteScroll -> InfiniteScroll) (w : World) : World :=
  mkWorld (f (self w)) (ionScroll w) (nextSubscription w)
          (domWrites w) (ionInfinite w).

(** Modelled from the spec: the content component is not part of the
    sources at hand; its [getContentDimensions()] is a synchronous
    read that returns [{scrollHeight, scrollTop, contentHeight}]. *)
Record ContentDimensions : Type := mkDims {
  contentHeight : number;
  scrollHeight : number;
  scrollTop : number
}.

(** The two DOM reads of [_onScroll]: the [scrollHeight] of the
    directive's own element ([None] when absent) and the dimensions
    of the content. *)
Record Dom : Type := mkDom {
  nativeElement_scrollHeight : option number;
  getContentDimensions : ContentDimensions
}.

Record ScrollEvent : Type := mkScrollEvent {
  timeStamp : number
}.

(** [new InfiniteScroll(...)] *)
Definition constructor : World :=
  mkWorld
    (mkInfiniteScroll (of_Z 0) (of_Z 0) "15%" (of_Z 0) (fin (15 # 100))
                      false STATE_ENABLED None)
    [] 0%nat [] 0%nat.

(** [get threshold()] *)
Definition get_threshold (w : World) : string := _thr (self w).

(** [set threshold(val)] *)
Definition set_threshold (val : string) (w : World) : World :=
  if (indexOf val "%" >? -1)%Z
  then with_self (with_threshold val (of_Z 0) (parseFloat val / of_Z 100)%js) w
  else with_self (with_threshold val (parseFloat val) (of_Z 0)) w.

(** [reloadY] as [_onScroll] computes it. *)
Definition reloadY (t : InfiniteScroll) (d : ContentDimensions) : number :=
  let reloadY := contentHeight d in
  if truthy (_thrPc t)
  then (reloadY + reloadY * _thrPc t)%js
  else (reloadY + _thrPx t)%js.

(** [distanceFromInfinite] as [_onScroll] computes it. *)
Definition distanceFromInfinite (t : InfiniteScroll) (infiniteHeight : number)
           (d : ContentDimensions) : number :=
  (((scrollHeight d - infiniteHeight) - scrollTop d) - reloadY t d)%js.

(** Modelled from the spec: the DOM controller is not part of the
    sources at hand; [_dom.write(cb)] schedules [cb] for the next
    write phase and preserves the order of the calls. *)
Definition dom_write (cb : WriteCallback) (w : World) : World :=
  mkWorld (self w) (ionScroll w) (nextSubscription w)
          (domWrites w ++ [cb]) (ionInfinite w).

(** Modelled from the spec: the event emitter is not part of the
    sources at hand; [ionInfinite.emit(this)] delivers the instance to
    whoever listens, which is counted here. *)
Definition ionInfinite_emit (w : World) : World :=
  mkWorld (self w) (ionScroll w) (nextSubscription w)
          (domWrites w) (S (ionInfinite w)).

Definition suppressed (s : State) : bool :=
  State_eqb s STATE_LOADING || State_eqb s STATE_DISABLED.

(** [_onScroll(ev)], with its return code. *)
Definition _onScroll (dom : Dom) (ev : ScrollEvent) (w : World) : Z * World :=
  if suppressed (state (self w)) then (1, w)
  else if (_lastCheck (self w) + of_Z 32 >? timeStamp ev)%js then (2, w)
  else
    let w := with_self (with_lastCheck (timeStamp ev)) w in
    match nativeElement_scrollHeight dom with
    | None => (3, w)
    | Some infiniteHeight =>
        if negb (truthy infiniteHeight) then (3, w)
        else
          let d := getContentDimensions dom in
          if (distanceFromInfinite (self w) infiniteHeight d <? of_Z 0)%js
          then (5, dom_write EmitInfinite w)
          else (6, w)
    end.

(** The body of the callback written by [_onScroll]. *)
Definition run_callback (cb : WriteCallback) (w : World) : World :=
  match cb with
  | EmitInfinite =>
      if negb (State_eqb (state (self w)) STATE_LOADING)
         && negb (State_eqb (state (self w)) STATE_DISABLED)
      then ionInfinite_emit (with_self (with_state STATE_LOADING) w)
      else w
  end.

(** Modelled from the spec: the write phase of the DOM controller
    runs the oldest pending callback to completion. *)
Definition dom_flush_one (w : World) : World :=
  match domWrites w with
  | [] => w
  | cb :: rest =>
      run_callback cb
        (mkWorld (self w) (ionScroll w) (nextSubscription w) rest
                 (ionInfinite w))
  end.

(** [complete()] *)
Definition complete (w : World) : World :=
  with_self (with_state STATE_ENABLED) w.

(** Modelled from the spec: the scroll stream of the content is not
    part of the sources at hand; [_content.ionScroll.subscribe(handler)]
    adds an observer and returns its handle. *)
Definition ionScroll_subscribe (w : World) : Subscription * World :=
  let h := nextSubscription w in
  (h, mkWorld (self w) (ionScroll w ++ [h]) (S h) (domWrites w) (ionInfinite w)).

(** Modelled from the spec: [subscription.unsubscribe()] removes the
    observer, and doing it again changes nothing. *)
Definition unsubscribe (h : Subscription) (w : World) : World :=
  mkWorld (self w) (List.remove Nat.eq_dec h (ionScroll w))
          (nextSubscription w) (domWrites w) (ionInfinite w).

(** [_setListeners(shouldListen)] *)
Definition _setListeners (shouldListen : bool) (w : World) : World :=
  if _init (self w) then
    if shouldListen then
      match _scLsn (self w) with
      | None =>
          let (h, w') := ionScroll_subscribe w in
          with_self (with_scLsn (Some h)) w'
      | Some _ => w
      end
    else
      let w' := match _scLsn (self w) with
                | Some h => unsubscribe h w
                | None => w
                end in
      with_self (with_scLsn None) w'
  else w.

(** [enable(shouldEnable)] *)
Definition enable (shouldEnable : bool) (w : World) : World :=
  let w := with_self
             (with_state (if shouldEnable then STATE_ENABLED else STATE_DISABLED))
             w in
  _setListeners shouldEnable w.

(** [set enabled(shouldEnable)] *)
Definition set_enabled (shouldEnable : bool) (w : World) : World :=
  enable shouldEnable w.

(** [ngAfterContentInit()] *)
Definition ngAfterContentInit (w : World) : World :=
  let w := with_self (with_init true) w in
  _setListeners (negb (State_eqb (state (self w)) STATE_DISABLED)) w.

(** [ngOnDestroy()] *)
Definition ngOnDestroy (w : World) : World :=
  _setListeners false w.

(** Modelled from the spec: the content emits a scroll event on its
    stream.  Every handler subscribed by this instance,
    [(ev) => this._onScroll(ev)], runs once, in subscription order,
    and its return code is dropped. *)
Definition ionScroll_emit (dom : Dom) (ev : ScrollEvent) (w : World) : World :=
  fold_left (fun acc (_ : Subscription) => snd (_onScroll dom ev acc))
            (ionScroll w) w.

(** ** Histories *)

(** What can happen to a mounted instance, one event at a time. *)
Inductive Op : Type :=
| OpSetThreshold : string -> Op
| OpSetEnabled : bool -> Op
| OpComplete : Op
| OpAfterContentInit : Op
| OpOnDestroy : Op
| OpScroll : Dom -> ScrollEvent -> Op
| OpWritePhase : Op.

Definition step (o : Op) (w : World) : World :=
  match o with
  | OpSetThreshold val => set_threshold val w
  | OpSetEnabled b => set_enabled b w
  | OpComplete => complete w
  | OpAfterContentInit => ngAfterContentInit w
  | OpOnDestroy => ngOnDestroy w
  | OpScroll dom ev => ionScroll_emit dom ev w
  | OpWritePhase => dom_flush_one w
  end.

Definition run (ops : list Op) (w : World) : World :=
  fold_left (fun acc o => step o acc) ops w.

(** The worlds some history leads to from a fresh instance. *)
Inductive reachable : World -> Prop :=
| reachable_new : reachable constructor
| reachable_step : forall o w, reachable w -> reachable (step o w).

(** ** Vocabulary of the properties *)

(** Which branch of [_onScroll] interprets the threshold: the test is
    [if (this._thrPc)]. *)
Inductive ThresholdMode : Type :=
| PercentageMode : ThresholdMode
| PixelMode : ThresholdMode.

Definition thresholdMode (t : InfiniteScroll) : ThresholdMode :=
  if truthy (_thrPc t) then PercentageMode else PixelMode.

(** The sample gets past the state guard and the throttle. *)
Definition processed (ev : ScrollEvent) (w : World) : bool :=
  negb (suppressed (state (self w)))
  && negb (_lastCheck (self w) + of_Z 32 >? timeStamp ev)%js.

(** The directive's element reports no height: absent, [0] or [NaN]. *)
Definition no_height (dom : Dom) : bool :=
  match nativeElement_scrollHeight dom with
  | None => true
  | Some h => negb (truthy h)
  end.

(** Handling the sample hands one more callback to [_dom.write]. *)
Definition schedules (dom : Dom) (ev : ScrollEvent) (w : World) : Prop :=
  domWrites (snd (_onScroll dom ev w)) = (domWrites w ++ [EmitInfinite])%list.

(** The distance as the specification words it, with the content
    height of the metrics in both places. *)
Definition spec_reloadY (t : InfiniteScroll) (d : ContentDimensions) : number :=
  match thresholdMode t with
  | PercentageMode => (contentHeight d + contentHeight d * _thrPc t)%js
  | PixelMode => (contentHeight d + _thrPx t)%js
  end.

Definition spec_distanceFromEnd (t : InfiniteScroll) (d : ContentDimensions)
  : number :=
  (((scrollHeight d - contentHeight d) - scrollTop d) - spec_reloadY t d)%js.

(** The observers on [ionScroll] are exactly the handle kept in
    [_scLsn], and none is kept before [ngAfterContentInit]. *)
Definition listening_inv (w : World) : Prop :=
  ionScroll w = match _scLsn (self w) with
                | Some h => [h]
                | None => []
                end
  /\ (_init (self w) = false -> _scLsn (self w) = None).

(** [_onScroll] writes [_lastCheck] and the write queue, nothing else. *)
Definition same_setup (w w' : World) : Prop :=
  ionScroll w' = ionScroll w
  /\ nextSubscription w' = nextSubscription w
  /\ ionInfinite w' = ionInfinite w
  /\ state (self w') = state (self w)
  /\ _scLsn (self w') = _scLsn (self w)
  /\ _init (self w') = _init (self w)
  /\ _thr (self w') = _thr (self w)
  /\ _thrPx (self w') = _thrPx (self w)
  /\ _thrPc (self w') = _thrPc (self w).

(** At most one of the two threshold fields is in use. *)
Definition threshold_inv (t : InfiniteScroll) : Prop :=
  _thrPx t = of_Z 0 \/ _thrPc t = of_Z 0.

Definition is_set_threshold (o : Op) : bool :=
  match o with OpSetThreshold _ => true | _ => false end.

Definition is_scroll (o : Op) : bool :=
  match o with OpScroll _ _ => true | _ => false end.

(** The events that need no call from the application: the content
    scrolls, the DOM controller runs a write phase. *)
Definition is_passive (o : Op) : bool :=
  match o with OpScroll _ _ | OpWritePhase => true | _ => false end.

(** [n] write phases in a row. *)
Definition write_phases (n : nat) (w : World) : World :=
  Nat.iter n dom_flush_one w.

(** A mounted instance with the default threshold, and the sample of
    the first end-to-end scenario. *)
Definition mounted : World := ngAfterContentInit constructor.

Definition sample (h c s t : Z) : Dom :=
  mkDom (Some (of_Z h)) (mkDims (of_Z c) (of_Z s) (of_Z t)).

Definition at_ms (t : Z) : ScrollEvent := mkScrollEvent (of_Z t).

(** The mounted instance of the first scenario, threshold set to 15%. *)
Definition scenario1 : World :=
  ngAfterContentInit (set_threshold "15%" constructor).

(** ** The modal and its controller ([modal.js]) *)

Module ModalJs.

(** The values the options of a modal can hold.  An object is read
    through its properties; a property that was never set reads as
    [undefined]. *)
Inductive JsValue : Type :=
| Undefined : JsValue
| Null : JsValue
| Bool : bool -> JsValue
| Num : number -> JsValue
| Str : string -> JsValue
| Obj : (string -> JsValue) -> JsValue.

Definition JsObject : Type := string -> JsValue.

(** [{}] *)
Definition empty : JsObject := fun _ => Undefined.

(** [o.k = v] *)
Definition set (k : string) (v : JsValue) (o : JsObject) : JsObject :=
  fun k' => if String.eqb k' k then v else o k'.

(** [!!v] *)
Definition toBoolean (v : JsValue) : bool :=
  match v with
  | Undefined | Null => false
  | Bool b => b
  | Num n => truthy n
  | Str s => negb (String.eqb s "")
  | Obj _ => true
  end.

(** [a || b] *)
Definition or_else (a b : JsValue) : JsValue :=
  if toBoolean a then a else b.

(** [v === 'back'] *)
Definition is_back (v : JsValue) : bool :=
  match v with
  | Str s => String.eqb s "back"
  | _ => false
  end.

(** [this._nav], a field of the view controller: never assigned,
    [null], or the nav controller, of which only [config.get] is
    used. *)
Inductive NavRef : Type :=
| NavUndefined : NavRef
| NavNull : NavRef
| Nav : (string -> JsValue) -> NavRef.

(** [nav && nav.config.get(key)] *)
Definition and_config_get (nav : NavRef) (key : string) : JsValue :=
  match nav with
  | NavUndefined => Undefined
  | NavNull => Null
  | Nav config_get => config_get key
  end.

(** The helper [isPresent] as it is commonly written: the value is
    neither [undefined] nor [null].  It only serves as an instance of
    the parameter below. *)
Definition neither_undefined_nor_null (v : JsValue) : bool :=
  match v with
  | Undefined | Null => false
  | _ => true
  end.

Section Collaborators.

(** What [modal.js] imports and does not define: the app, the view
    controller it extends with its constructor and its [_nav] field,
    the component class [ModalCmp], the helper [isPresent], and what
    [App.present] returns. *)
Variables App ViewController Result : Type.
Variable isPresent : JsValue -> bool.
Variable ModalCmp : JsValue.
Variable ViewController_new : JsValue -> JsObject -> ViewController.
Variable _nav : ViewController -> NavRef.

(** A [Modal]: the view controller it extends and its own fields. *)
Record Modal : Type := mkModal {
  super : ViewController;
  _app : App;
  _enterAnimation : JsValue;
  _leaveAnimation : JsValue;
  isOverlay : bool
}.

Variable App_present : App -> Modal -> JsObject -> Z -> Result.

(** [isPresent(v) ? !!v : true] *)
Definition flag (v : JsValue) : JsValue :=
  Bool (if isPresent v then toBoolean v else true).

(** [new Modal(app, component, data, opts)].  [data] is [None] for a
    falsy argument and [opts] is [None] for an omitted one.  Both
    objects are written to, so they are returned with the modal, the
    data first. *)
Definition constructor (app : App) (component : JsValue)
           (data opts : option JsObject) : Modal * JsObject * JsObject :=
  let opts := match opts with Some o => o | None => empty end in
  let data := match data with Some d => d | None => empty end in
  let data := set "component" component data in
  let opts := set "showBackdrop" (flag (opts "showBackdrop")) opts in
  let opts := set "enableBackdropDismiss"
                  (flag (opts "enableBackdropDismiss")) opts in
  let data := set "opts" (Obj opts) data in
  (mkModal (ViewController_new ModalCmp data) app
           (opts "enterAnimation") (opts "leaveAnimation") true,
   data, opts).

(** [getTransitionName(direction)] *)
Definition getTransitionName (this : Modal) (direction : JsValue) : JsValue :=
  if is_back direction then
    if toBoolean (_leaveAnimation this) then _leaveAnimation this
    else and_config_get (_nav (super this)) "modalLeave"
  else
    if toBoolean (_enterAnimation this) then _enterAnimation this
    else and_config_get (_nav (super this)) "modalEnter".

(** [present(navOptions)], with the options object as it is left. *)
Definition present (this : Modal) (navOptions : option JsObject)
  : Result * JsObject :=
  let navOptions := match navOptions with Some o => o | None => empty end in
  let navOptions :=
    set "minClickBlockDuration"
        (or_else (navOptions "minClickBlockDuration") (Num (of_Z 400)))
        navOptions in
  (App_present (_app this) this navOptions 1, navOptions).

(** A [ModalController] and its [create(component, data, opts)]. *)
Record ModalController : Type := mkModalController {
  controller_app : App
}.

Definition create (this : ModalController) (component : JsValue)
           (data opts : option JsObject) : Modal * JsObject * JsObject :=
  constructor (controller_app this) component data opts.

End Collaborators.

End ModalJs.

(** Strings made of decimal digits only. *)
Fixpoint all_digits (s : string) : bool :=
  match s with
  | EmptyString => true
  | String c r =>
      match digit_of c with
      | Some _ => all_digits r
      | None => false
      end
  end.

(** What may follow the digits of a number without being read as
    part of it: nothing, or a character that is neither a digit, a
    dot nor an exponent mark. *)
Definition stops_number (u : string) : bool :=
  match u with
  | EmptyString => true
  | String c _ =>
      match digit_of c with
      | Some _ => false
      | None => negb (Ascii.eqb c "." || Ascii.eqb c "e" || Ascii.eqb c "E")
      end
  end.

(** The integer a string of digits writes. *)
Definition digits_number (ds : string) : Z :=
  digits_value (fst (take_digits ds)).

(** The calls that put the state back to enabled. *)
Definition rearms (o : Op) : bool :=
  match o with
  | OpComplete | OpSetEnabled true => true
  | _ => false
  end.

Example parseFloat_15pc : parseFloat "15%" = of_Z 15.
Proof. reflexivity. Qed.

Example parseFloat_100px : parseFloat "100px" = of_Z 100.
Proof. reflexivity. Qed.

Example parseFloat_frac : parseFloat "  -2.5e1px" = of_Z (-25).
Proof. reflexivity. Qed.

Example parseFloat_dot : parseFloat ".5" = Fin (1 # 2).
Proof. reflexivity. Qed.

Example parseFloat_abc : parseFloat "abc%" = NaN.
Proof. reflexivity. Qed.

Example parseFloat_pc : parseFloat "%" = NaN.
Proof. reflexivity. Qed.

Example parseFloat_dotonly : parseFloat ".e5" = NaN.
Proof. reflexivity. Qed.

(** ** Facts on rounding *)

Section Rounding.

Local Open Scope Z_scope.

Lemma Qred_inject_Z (m : Z) : Qred (inject_Z m) = inject_Z m.
Proof.
  unfold Qred, inject_Z.
  pose proof (Z.ggcd_gcd m 1) as Hg.
  pose proof (Z.ggcd_correct_divisors m 1) as Hd.
  destruct (Z.ggcd m 1) as [g [aa bb]]. simpl in *.
  rewrite Z.gcd_1_r in Hg. subst g. destruct Hd as [Ha Hb].
  assert (Ea : aa = m) by lia. assert (Eb : bb = 1) by lia.
  now rewrite Ea, Eb.
Qed.

Lemma fin_proper (p q : Q) : (p == q)%Q -> fin p = fin q.
Proof. intros H. unfold fin, round64. now rewrite (Qred_complete p q H). Qed.

Lemma log2_ratio_lower (n d : positive) :
  0 <= log2_ratio n d -> Zpos d * 2 ^ log2_ratio n d <= Zpos n.
Proof.
  unfold log2_ratio.
  set (k := Z.log2 (Zpos n) - Z.log2 (Zpos d)).
  destruct (Z.leb_spec (Zpos d * 2 ^ Z.max 0 k) (Zpos n * 2 ^ Z.max 0 (- k)))
    as [H | H]; intros Hk.
  - rewrite Z.max_r in H by lia.
    replace (Z.max 0 (- k)) with 0 in H by lia.
    rewrite Z.pow_0_r in H. lia.
  - destruct (Z.log2_spec (Zpos n)) as [Hn _]; [ lia | ].
    destruct (Z.log2_spec (Zpos d)) as [_ Hd]; [ lia | ].
    assert (Hld : 0 <= Z.log2 (Zpos d)) by apply Z.log2_nonneg.
    assert (E : 2 ^ Z.log2 (Zpos n)
                = 2 ^ Z.succ (Z.log2 (Zpos d)) * 2 ^ (k - 1)).
    { rewrite <- Z.pow_add_r by lia. f_equal. unfold k. lia. }
    assert (Hp : 0 < 2 ^ (k - 1)) by (apply Z.pow_pos_nonneg; lia).
    nia.
Qed.

Lemma nearest_even_bounds (a b : Z) :
  0 <= a -> 0 < b ->
  a / b <= nearest_even a b
  /\ forall c, a <= c * b -> nearest_even a b <= c.
Proof.
  intros Ha Hb. unfold nearest_even.
  pose proof (Z.div_mod a b ltac:(lia)) as Hdm.
  pose proof (Z.mod_pos_bound a b Hb) as Hr.
  split.
  - destruct (2 * (a mod b) ?= b); try destruct (Z.even (a / b)); lia.
  - intros c Hc.
    assert (Hq : a / b <= c).
    { apply Z.div_le_upper_bound; lia. }
    destruct (Z.compare_spec (2 * (a mod b)) b) as [E | E | E];
      try destruct (Z.even (a / b)); try lia;
      (assert (a / b <> c) by nia); lia.
Qed.

Lemma pow2_pos (k : Z) : 0 <= k -> 0 < 2 ^ k.
Proof. intros H. apply Z.pow_pos_nonneg; lia. Qed.

Lemma exponent_small (n d : positive) (C : Z) :
  0 < C < 2 ^ 53 -> Zpos n <= C * Zpos d ->
  Z.max (log2_ratio n d - 52) (-1074) <= 0.
Proof.
  intros HC Hn.
  destruct (Z.le_gt_cases (log2_ratio n d) 52) as [H | H]; [ lia | ].
  exfalso.
  pose proof (log2_ratio_lower n d ltac:(lia)) as Hl.
  assert (Hp : 2 ^ 53 <= 2 ^ log2_ratio n d) by (apply Z.pow_le_mono_r; lia).
  nia.
Qed.

(** A positive quotient that does not exceed an integer below
    [2 ^ 53] is rounded to a finite value that does not exceed it
    either. *)
Lemma round_pos_le (n d : positive) (C : Z) :
  0 < C < 2 ^ 53 -> Zpos n <= C * Zpos d ->
  exists r, round_pos n d = Fin r /\ (0 <= r)%Q /\ (r <= inject_Z C)%Q.
Proof.
  intros HC Hn. pose proof (exponent_small n d C HC Hn) as He.
  unfold round_pos.
  set (e := Z.max (log2_ratio n d - 52) (-1074)) in *.
  replace (Z.max 0 e) with 0 by lia.
  replace (Z.max 0 (- e)) with (- e) by lia.
  rewrite Z.pow_0_r, !Z.mul_1_r.
  pose proof (pow2_pos (- e) ltac:(lia)) as HP.
  set (P := 2 ^ (- e)) in *.
  destruct (nearest_even_bounds (Zpos n * P) (Zpos d) ltac:(lia) ltac:(lia))
    as [Hlo Hup].
  specialize (Hup (C * P) ltac:(nia)).
  assert (Hm0 : 0 <= nearest_even (Zpos n * P) (Zpos d)).
  { etransitivity; [ | exact Hlo ]. apply Z.div_pos; lia. }
  set (m := nearest_even (Zpos n * P) (Zpos d)) in *.
  assert (Hbig : 2 ^ 53 < 2 ^ 1024) by (apply Z.pow_lt_mono_r; lia).
  destruct (Z.leb_spec (2 ^ 1024 * P) m) as [Hov | Hov]; [ nia | ].
  eexists. split; [ reflexivity | ].
  rewrite Qred_correct. unfold Qle. cbn [Qnum Qden inject_Z].
  rewrite Z2Pos.id by lia. split; nia.
Qed.

(** A quotient of at least one is rounded to a positive value. *)
Lemma round_pos_positive (n d : positive) :
  Zpos d <= Zpos n ->
  round_pos n d = PosInf \/ exists r, round_pos n d = Fin r /\ (0 < r)%Q.
Proof.
  intros Hn. unfold round_pos.
  set (e := Z.max (log2_ratio n d - 52) (-1074)).
  pose proof (pow2_pos (Z.max 0 e) ltac:(lia)) as HE.
  pose proof (pow2_pos (Z.max 0 (- e)) ltac:(lia)) as HP.
  assert (Hab : Zpos d * 2 ^ Z.max 0 e <= Zpos n * 2 ^ Z.max 0 (- e)).
  { destruct (Z.le_gt_cases e 0) as [H | H].
    - replace (Z.max 0 e) with 0 by lia. rewrite Z.pow_0_r. nia.
    - replace (Z.max 0 (- e)) with 0 by lia. rewrite Z.pow_0_r, Z.mul_1_r.
      replace (Z.max 0 e) with e by lia.
      assert (He : e = log2_ratio n d - 52) by (unfold e; lia).
      pose proof (log2_ratio_lower n d ltac:(lia)) as Hl.
      assert (Hp : 2 ^ e <= 2 ^ log2_ratio n d) by (apply Z.pow_le_mono_r; lia).
      nia. }
  destruct (nearest_even_bounds (Zpos n * 2 ^ Z.max 0 (- e))
              (Zpos d * 2 ^ Z.max 0 e) ltac:(lia) ltac:(lia)) as [Hlo _].
  assert (Hm : 1 <= nearest_even (Zpos n * 2 ^ Z.max 0 (- e))
                                 (Zpos d * 2 ^ Z.max 0 e)).
  { etransitivity; [ | exact Hlo ].
    apply Z.div_le_lower_bound; lia. }
  destruct (_ <=? _); [ now left | right ].
  eexists. split; [ reflexivity | ].
  rewrite Qred_correct. unfold Qlt. cbn [Qnum Qden]. nia.
Qed.

(** An integer below [2 ^ 53] is a binary64 value. *)
Lemma round_pos_integer (z : positive) :
  Zpos z < 2 ^ 53 -> round_pos z 1 = Fin (inject_Z (Zpos z)).
Proof.
  intros Hz.
  pose proof (exponent_small z 1 (Zpos z) ltac:(lia) ltac:(lia)) as He.
  unfold round_pos.
  set (e := Z.max (log2_ratio z 1 - 52) (-1074)) in *.
  replace (Z.max 0 e) with 0 by lia.
  replace (Z.max 0 (- e)) with (- e) by lia.
  rewrite Z.pow_0_r, !Z.mul_1_r.
  pose proof (pow2_pos (- e) ltac:(lia)) as HP.
  set (P := 2 ^ (- e)) in *.
  assert (Em : nearest_even (Zpos z * P) 1 = Zpos z * P).
  { unfold nearest_even. rewrite Z.mod_1_r, Z.div_1_r. reflexivity. }
  rewrite Em.
  assert (Hbig : 2 ^ 53 < 2 ^ 1024) by (apply Z.pow_lt_mono_r; lia).
  destruct (Z.leb_spec (2 ^ 1024 * P) (Zpos z * P)) as [Hov | Hov]; [ nia | ].
  f_equal. rewrite <- (Qred_inject_Z (Zpos z)).
  apply Qred_complete. unfold Qeq. cbn [Qnum Qden inject_Z].
  rewrite Z2Pos.id by lia. lia.
Qed.

Lemma round_pos_cases (n d : positive) :
  round_pos n d = PosInf \/ exists r, round_pos n d = Fin r /\ (0 <= r)%Q.
Proof.
  unfold round_pos.
  set (e := Z.max (log2_ratio n d - 52) (-1074)).
  pose proof (pow2_pos (Z.max 0 e) ltac:(lia)) as HE.
  pose proof (pow2_pos (Z.max 0 (- e)) ltac:(lia)) as HP.
  destruct (nearest_even_bounds (Zpos n * 2 ^ Z.max 0 (- e))
              (Zpos d * 2 ^ Z.max 0 e) ltac:(lia) ltac:(lia)) as [Hlo _].
  assert (Hm : 0 <= nearest_even (Zpos n * 2 ^ Z.max 0 (- e))
                                 (Zpos d * 2 ^ Z.max 0 e)).
  { etransitivity; [ | exact Hlo ]. apply Z.div_pos; lia. }
  destruct (_ <=? _); [ now left | right ].
  eexists. split; [ reflexivity | ].
  rewrite Qred_correct. unfold Qle. cbn [Qnum Qden]. nia.
Qed.

(** Integers below [2 ^ 53] in absolute value are not rounded. *)
Lemma fin_integer_exact (z : Z) :
  - 2 ^ 53 < z < 2 ^ 53 -> fin (inject_Z z) = of_Z z.
Proof.
  intros Hz. unfold fin, round64. rewrite Qred_inject_Z.
  destruct z as [ | p | p]; cbn [Qnum Qden inject_Z].
  - reflexivity.
  - apply round_pos_integer. lia.
  - rewrite round_pos_integer by lia. reflexivity.
Qed.

(** Rounding does not step over an integer below [2 ^ 53]. *)
Lemma fin_upper (q : Q) (C : Z) :
  0 < C < 2 ^ 53 -> (q <= inject_Z C)%Q ->
  fin q = NegInf \/ exists r, fin q = Fin r /\ (r <= inject_Z C)%Q.
Proof.
  intros HC Hq. rewrite <- (Qred_correct q) in Hq.
  unfold fin, round64. destruct (Qred q) as [num den].
  unfold Qle in Hq. cbn [Qnum Qden inject_Z] in *.
  destruct num as [ | n | n].
  - right. exists 0%Q. split; [ reflexivity | ].
    unfold Qle. cbn. lia.
  - right. destruct (round_pos_le n den C HC ltac:(lia)) as (r & E & _ & Hr).
    exists r. now split.
  - destruct (round_pos_cases n den) as [E | (r & E & Hr)]; rewrite E.
    + now left.
    + right. exists (- r)%Q. split; [ reflexivity | ].
      unfold Qle in *. cbn [Qnum Qden inject_Z Qopp] in *. lia.
Qed.

(** What is at most [-1] is rounded to a negative value. *)
Lemma fin_negative (q : Q) :
  (q <= inject_Z (-1))%Q ->
  fin q = NegInf \/ exists r, fin q = Fin r /\ (r < 0)%Q.
Proof.
  intros Hq. rewrite <- (Qred_correct q) in Hq.
  unfold fin, round64. destruct (Qred q) as [num den].
  unfold Qle in Hq. cbn [Qnum Qden inject_Z] in *.
  destruct num as [ | n | n]; try lia.
  destruct (round_pos_positive n den ltac:(lia)) as [E | (r & E & Hr)];
    rewrite E.
  - now left.
  - right. exists (- r)%Q. split; [ reflexivity | ].
    unfold Qlt in *. cbn [Qnum Qden Qopp] in *. lia.
Qed.

End Rounding.

(** The rounding agrees with the binary64 arithmetic of the kernel
    where the two differ from exact arithmetic: a decimal fraction, a
    sum that rounds onto its neighbour, a product that rounds up, a
    quotient that underflows to zero, a tie broken to even, and
    overflow. *)
Example rounding_agrees_with_binary64 :
  let f := float_of_Z in
  fin (10001 # 10) = of_float (PrimFloat.div (f 10001) (f 10))
  /\ (fin (10001 # 10) + of_Z 32)%js
     = of_float (PrimFloat.add (PrimFloat.div (f 10001) (f 10)) (f 32))
  /\ (fin (10001 # 10) + of_Z 32)%js = fin (10321 # 10)
  /\ (of_Z 150 * fin (222 # 100))%js
     = of_float (PrimFloat.mul (f 150) (PrimFloat.div (f 222) (f 100)))
  /\ (fin (1 # 2 ^ 1074) / of_Z 100)%js
     = of_float (PrimFloat.div (FloatOps.Z.ldexp (f 1) (-1074)) (f 100))
  /\ fin (1 # 2 ^ 1074) = of_float (FloatOps.Z.ldexp (f 1) (-1074))
  /\ (fin (1 # 2 ^ 1074) / of_Z 100)%js = of_Z 0
  /\ (of_Z (2 ^ 53) + of_Z 1)%js
     = of_float (PrimFloat.add (FloatOps.Z.ldexp (f 1) 53) (f 1))
  /\ (of_Z (2 ^ 53) + of_Z 1)%js = of_Z (2 ^ 53)
  /\ (of_Z (2 ^ 1023) * of_Z 2)%js
     = of_float (PrimFloat.mul (FloatOps.Z.ldexp (f 1) 1023) (f 2))
  /\ of_Z (2 ^ 1023) = of_float (FloatOps.Z.ldexp (f 1) 1023)
  /\ (of_Z (2 ^ 1023) * of_Z 2)%js = PosInf
  /\ (of_Z 1000 * fin (15 # 100))%js
     = of_float (PrimFloat.mul (f 1000) (PrimFloat.div (f 15) (f 100)))
  /\ (of_Z 1000 * fin (15 # 100))%js = of_Z 150.
Proof. cbv zeta. repeat split; vm_compute; reflexivity. Qed.

(** ** Facts on numbers *)

Section NumberFacts.

Local Open Scope js_scope.

Lemma add_NaN_r (a : number) : a + NaN = NaN.
Proof. destruct a; reflexivity. Qed.

Lemma sub_NaN_r (a : number) : a - NaN = NaN.
Proof. destruct a; reflexivity. Qed.

Lemma lt_NaN_l (b : number) : (NaN <? b) = false.
Proof. reflexivity. Qed.

End NumberFacts.

(** ** Facts on [_onScroll] and on the event stream *)

Section ScrollFacts.

Variables (dom : Dom) (ev : ScrollEvent).

Lemma app_one_neq {A : Type} (l : list A) (x : A) : l <> (l ++ [x])%list.
Proof.
  intros E. apply (f_equal (@List.length A)) in E.
  rewrite List.length_app in E. simpl in E. lia.
Qed.

Lemma suppressed_iff (s : State) :
  suppressed s = true <-> s = STATE_LOADING \/ s = STATE_DISABLED.
Proof.
  destruct s; cbn; split; intros H;
    solve [ auto | discriminate H | destruct H as [H | H]; discriminate H ].
Qed.

Lemma onScroll_suppressed (w : World) :
  suppressed (state (self w)) = true -> _onScroll dom ev w = (1, w).
Proof. intros H. unfold _onScroll. now rewrite H. Qed.

Lemma onScroll_throttled (w : World) :
  (_lastCheck (self w) + of_Z 32 >? timeStamp ev)%js = true ->
  snd (_onScroll dom ev w) = w
  /\ (fst (_onScroll dom ev w) = 1 \/ fst (_onScroll dom ev w) = 2).
Proof.
  intros H. unfold _onScroll.
  destruct (suppressed (state (self w))); [ now auto | ].
  rewrite H. now auto.
Qed.

(** A sample that gets past both guards: the rest of [_onScroll]. *)
Lemma onScroll_processed (w : World) :
  processed ev w = true ->
  _onScroll dom ev w =
  let w' := with_self (with_lastCheck (timeStamp ev)) w in
  match nativeElement_scrollHeight dom with
  | None => (3, w')
  | Some infiniteHeight =>
      if negb (truthy infiniteHeight) then (3, w')
      else if (distanceFromInfinite (self w') infiniteHeight
                 (getContentDimensions dom) <? of_Z 0)%js
           then (5, dom_write EmitInfinite w')
           else (6, w')
  end.
Proof.
  unfold processed, _onScroll. intros H.
  apply andb_true_iff in H. destruct H as [H1 H2].
  apply negb_true_iff in H1. apply negb_true_iff in H2.
  now rewrite H1, H2.
Qed.

Lemma emit_fixed (w : World) :
  snd (_onScroll dom ev w) = w -> ionScroll_emit dom ev w = w.
Proof.
  intros H. unfold ionScroll_emit.
  induction (ionScroll w) as [ | h l IH]; simpl; [ reflexivity | ].
  now rewrite H.
Qed.

Lemma emit_no_observer (w : World) :
  ionScroll w = [] -> ionScroll_emit dom ev w = w.
Proof. intros H. unfold ionScroll_emit. now rewrite H. Qed.

(** With a single observer the stream runs the handler once. *)
Lemma emit_one_observer (w : World) (h : Subscription) :
  ionScroll w = [h] -> ionScroll_emit dom ev w = snd (_onScroll dom ev w).
Proof. intros H. unfold ionScroll_emit. now rewrite H. Qed.

End ScrollFacts.

Create HintDb scroll.
#[local] Hint Resolve onScroll_suppressed emit_fixed emit_no_observer : scroll.

(** ** What each operation leaves alone *)

(** Unfold one operation down to the record constructors. *)
Ltac unfold_ops :=
  unfold step, set_threshold, set_enabled, enable, complete,
    ngAfterContentInit, ngOnDestroy, _setListeners, ionScroll_subscribe,
    unsubscribe, dom_flush_one, run_callback, ionInfinite_emit, dom_write,
    with_self, with_state, with_scLsn, with_init, with_threshold,
    with_lastCheck in *.

(** Split on every test the goal still branches on. *)
Ltac split_tests :=
  repeat match goal with
         | |- context [if ?b then _ else _] => destruct b eqn:?
         | |- context [match ?x with Some _ => _ | None => _ end] =>
             destruct x eqn:?
         | |- context [match ?x with [] => _ | _ :: _ => _ end] =>
             destruct x eqn:?
         | |- context [match ?x with EmitInfinite => _ end] => destruct x
         end; simpl in *.

Section Frames.

Variables (dom : Dom) (ev : ScrollEvent).

Lemma same_setup_refl (w : World) : same_setup w w.
Proof. repeat split. Qed.

Lemma same_setup_trans (a b c : World) :
  same_setup a b -> same_setup b c -> same_setup a c.
Proof. unfold same_setup. intuition congruence. Qed.

Lemma onScroll_same_setup (w : World) :
  same_setup w (snd (_onScroll dom ev w)).
Proof.
  unfold _onScroll. split_tests; repeat split.
Qed.

Lemma emit_same_setup (w : World) :
  same_setup w (ionScroll_emit dom ev w).
Proof.
  unfold ionScroll_emit.
  generalize (ionScroll w) as l. intros l. revert w.
  induction l as [ | h l IH]; intros w; simpl.
  - apply same_setup_refl.
  - eapply same_setup_trans; [ apply onScroll_same_setup | apply IH ].
Qed.

End Frames.

Lemma step_keeps_lastCheck (o : Op) (w : World) :
  is_scroll o = false ->
  _lastCheck (self (step o w)) = _lastCheck (self w).
Proof.
  destruct o; try discriminate; intros _; unfold_ops;
    split_tests; reflexivity.
Qed.

Lemma run_keeps_lastCheck (ops : list Op) (w : World) :
  forallb (fun o => negb (is_scroll o)) ops = true ->
  _lastCheck (self (run ops w)) = _lastCheck (self w).
Proof.
  unfold run. revert w.
  induction ops as [ | o ops IH]; intros w H; simpl in *.
  - reflexivity.
  - apply andb_true_iff in H. destruct H as [Ho Hops].
    apply negb_true_iff in Ho.
    rewrite IH by assumption. now apply step_keeps_lastCheck.
Qed.

(** ** Invariants of every history *)

Lemma remove_single (h : Subscription) : List.remove Nat.eq_dec h [h] = [].
Proof. simpl. destruct (Nat.eq_dec h h); congruence. Qed.

Lemma setListeners_inv (b : bool) (w : World) :
  listening_inv w -> listening_inv (_setListeners b w).
Proof.
  unfold listening_inv, _setListeners.
  destruct w as [[lc hy thr px pc init st [h | ]] obs nxt q n];
    destruct init, b; simpl; intros [Hobs Hinit];
    try (split; [ assumption | assumption ]); subst obs.
  - rewrite remove_single. now split.
  - split; [ reflexivity | discriminate ].
Qed.

Lemma same_setup_inv (w w' : World) :
  same_setup w w' -> listening_inv w -> listening_inv w'.
Proof.
  unfold same_setup, listening_inv.
  intros (Ho & _ & _ & _ & Hs & Hi & _) [Hobs Hinit].
  rewrite Ho, Hs, Hi. now split.
Qed.

Lemma step_listening_inv (o : Op) (w : World) :
  listening_inv w -> listening_inv (step o w).
Proof.
  intros H. destruct o; simpl.
  - unfold set_threshold. split_tests; exact H.
  - unfold set_enabled, enable. apply setListeners_inv. exact H.
  - exact H.
  - unfold ngAfterContentInit. apply setListeners_inv.
    destruct H as [Hobs Hinit]. split; simpl.
    + exact Hobs.
    + discriminate.
  - apply setListeners_inv. exact H.
  - eapply same_setup_inv; [ apply emit_same_setup | exact H ].
  - unfold dom_flush_one, run_callback. split_tests; exact H.
Qed.

Lemma step_threshold_inv (o : Op) (w : World) :
  threshold_inv (self w) -> threshold_inv (self (step o w)).
Proof.
  intros H. destruct o; simpl.
  - unfold set_threshold, threshold_inv. split_tests; auto.
  - unfold_ops. split_tests; exact H.
  - exact H.
  - unfold_ops. split_tests; exact H.
  - unfold_ops. split_tests; exact H.
  - destruct (emit_same_setup d s w) as (_ & _ & _ & _ & _ & _ & _ & Hpx & Hpc).
    unfold threshold_inv. now rewrite Hpx, Hpc.
  - unfold_ops. split_tests; exact H.
Qed.

Lemma reachable_inv (w : World) :
  reachable w -> listening_inv w /\ threshold_inv (self w).
Proof.
  induction 1 as [ | o w Hw [IHl IHt]].
  - split; [ split; [ reflexivity | reflexivity ] | left; reflexivity ].
  - split; [ now apply step_listening_inv | now apply step_threshold_inv ].
Qed.

(** ** The state guard and the deferred callback *)

Lemma distance_with_lastCheck (v h : number) (d : ContentDimensions)
      (w : World) :
  distanceFromInfinite (self (with_self (with_lastCheck v) w)) h d
  = distanceFromInfinite (self w) h d.
Proof. reflexivity. Qed.

Lemma flush_disabled (w : World) :
  state (self w) = STATE_DISABLED ->
  state (self (dom_flush_one w)) = STATE_DISABLED
  /\ ionInfinite (dom_flush_one w) = ionInfinite w.
Proof.
  intros H. unfold dom_flush_one, run_callback.
  destruct (domWrites w) as [ | [] rest]; simpl; rewrite H; simpl; auto.
Qed.

Lemma disable_state (w : World) :
  state (self (set_enabled false w)) = STATE_DISABLED
  /\ ionInfinite (set_enabled false w) = ionInfinite w.
Proof. unfold_ops. split_tests; auto. Qed.

Lemma write_phases_disabled (n : nat) (w : World) :
  state (self w) = STATE_DISABLED ->
  state (self (write_phases n w)) = STATE_DISABLED
  /\ ionInfinite (write_phases n w) = ionInfinite w.
Proof.
  intros H. induction n as [ | n [IHs IHi]]; simpl.
  - now split.
  - destruct (flush_disabled (write_phases n w) IHs) as [Hs Hi].
    split; [ exact Hs | congruence ].
Qed.

(** C4: a scroll sample that arrives while the state is loading or
    disabled is a no-op whatever its geometry and time stamp:
    [_onScroll] returns at its first guard with the instance and its
    collaborators untouched, no callback is handed to the DOM
    controller, and an event of the scroll stream leaves everything as
    it was. *)
Theorem suppressed_sample_is_noop (dom : Dom) (ev : ScrollEvent) (w : World) :
  state (self w) = STATE_LOADING \/ state (self w) = STATE_DISABLED ->
  _onScroll dom ev w = (1, w)
  /\ ~ schedules dom ev w
  /\ ionScroll_emit dom ev w = w.
Proof.
  intros H. apply suppressed_iff in H.
  assert (E : _onScroll dom ev w = (1, w)) by auto with scroll.
  split; [ exact E | split ].
  - unfold schedules. rewrite E. simpl. apply app_one_neq.
  - apply emit_fixed. now rewrite E.
Qed.

Lemma suppressed_sample_is_noop_witness :
  _onScroll (sample 1000 1000 1200 200) (at_ms 100) (set_enabled false mounted)
  = (1, set_enabled false mounted).
Proof.
  exact (proj1 (suppressed_sample_is_noop
                  (sample 1000 1000 1200 200) (at_ms 100)
                  (set_enabled false mounted) (or_intror eq_refl))).
Defined.

(** C5: what a threshold crossing schedules is the callback that reads
    [state] again when it runs.  If the state is then loading or
    disabled the callback changes nothing and emits nothing; otherwise
    it sets the state to loading and emits [ionInfinite] once.  Hence
    after a disable, however many write phases run, no notification
    is delivered and the state stays disabled. *)
Theorem write_callback_rechecks_state (w : World) :
  (forall dom ev,
      fst (_onScroll dom ev w) = 5 -> schedules dom ev w)
  /\ (suppressed (state (self w)) = true ->
      run_callback EmitInfinite w = w)
  /\ (suppressed (state (self w)) = false ->
      run_callback EmitInfinite w
      = ionInfinite_emit (with_self (with_state STATE_LOADING) w)
      /\ state (self (run_callback EmitInfinite w)) = STATE_LOADING
      /\ ionInfinite (run_callback EmitInfinite w) = S (ionInfinite w))
  /\ (forall n,
      ionInfinite (write_phases n (set_enabled false w)) = ionInfinite w
      /\ state (self (write_phases n (set_enabled false w))) = STATE_DISABLED).
Proof.
  split; [ | split; [ | split ] ].
  - intros dom ev. unfold schedules, _onScroll.
    split_tests; intros H; solve [ discriminate H | reflexivity ].
  - intros H. unfold run_callback. unfold suppressed in H.
    destruct (state (self w)); simpl in *; congruence.
  - intros H. unfold run_callback. unfold suppressed in H.
    destruct (state (self w)); simpl in *; try discriminate H.
    repeat split.
  - intros n. destruct (disable_state w) as [Hs Hi].
    destruct (write_phases_disabled n _ Hs) as [Hs' Hi'].
    split; congruence.
Qed.

Lemma write_callback_rechecks_state_witness :
  let w := snd (_onScroll (sample 1000 1000 1200 200) (at_ms 100) mounted) in
  domWrites w = [EmitInfinite]
  /\ ionInfinite (write_phases 3 (set_enabled false w)) = 0%nat
  /\ ionInfinite (run_callback EmitInfinite w) = 1%nat.
Proof.
  split; [ reflexivity | split ].
  - exact (proj1 (proj2 (proj2 (proj2
             (write_callback_rechecks_state
                (snd (_onScroll (sample 1000 1000 1200 200) (at_ms 100)
                        mounted))))) 3%nat)).
  - exact (proj2 (proj2 (proj1 (proj2 (proj2
             (write_callback_rechecks_state
                (snd (_onScroll (sample 1000 1000 1200 200) (at_ms 100)
                        mounted))))) eq_refl))).
Defined.

(** ** The throttle and the comparison *)

Lemma add_integers (a b : Z) :
  (- 2 ^ 53 < a + b < 2 ^ 53)%Z -> (of_Z a + of_Z b)%js = of_Z (a + b).
Proof.
  intros H. unfold add, of_Z.
  rewrite (fin_proper _ (inject_Z (a + b))) by (now rewrite inject_Z_plus).
  now apply fin_integer_exact.
Qed.

Lemma lt_integers (a b : Z) : (of_Z a <? of_Z b)%js = (a <? b)%Z.
Proof.
  unfold lt, of_Z, Qcompare. cbn [Qnum Qden inject_Z].
  rewrite !Z.mul_1_r. unfold Z.ltb. now destruct (a ?= b)%Z.
Qed.

(** With integer time stamps the throttle test is the comparison of
    their difference with 32. *)
Lemma throttle_test_integers (a b : Z) :
  (- 2 ^ 53 < a + 32 < 2 ^ 53)%Z ->
  (of_Z a + of_Z 32 >? of_Z b)%js = (b - a <? 32)%Z.
Proof.
  intros H. unfold gt. rewrite add_integers by exact H.
  rewrite lt_integers. apply eq_true_iff_eq.
  rewrite !Z.ltb_lt. lia.
Qed.

(** C7, as worded, does not hold.  On a new instance the sample at 31
    ms is dropped by the throttle and the one at 40 ms, 9 ms later, is
    processed: the throttle does not measure from the previous sample
    but from the last processed one.  And the test is made on the sum
    the code computes: after a processed sample at 1000.1 ms the one
    at 1032.1 ms is less than 32 ms later, yet 1000.1 + 32 rounds to
    1032.1 and the second sample is processed as well. *)
Lemma close_samples_both_handled :
  let dom := sample 50 1000 3000 0 in
  (_onScroll dom (at_ms 31) mounted = (2, mounted)
   /\ (timeStamp (at_ms 40) - timeStamp (at_ms 31) <? of_Z 32)%js = true
   /\ _onScroll dom (at_ms 40) mounted
      = (6, with_self (with_lastCheck (of_Z 40)) mounted))
  /\ (let ev1 := mkScrollEvent (fin (10001 # 10)) in
      let ev2 := mkScrollEvent (fin (10321 # 10)) in
      let w1 := snd (_onScroll dom ev1 mounted) in
      processed ev1 mounted = true
      /\ _lastCheck (self w1) = timeStamp ev1
      /\ (timeStamp ev2 - timeStamp ev1 <? of_Z 32)%js = true
      /\ (timeStamp ev1 + of_Z 32)%js = timeStamp ev2
      /\ processed ev2 w1 = true
      /\ _lastCheck (self (snd (_onScroll dom ev2 w1))) = timeStamp ev2).
Proof. cbv zeta. repeat split. Qed.

(** C7, amended: the throttle measures from the last processed sample
    and tests the sum the code computes.  When a sample gets past the
    state guard and the throttle it stores its own time stamp in
    [_lastCheck]; whatever happens in between short of another sample,
    a second sample for which that time stamp plus 32 is still greater
    than its own is then a no-op that leaves [_lastCheck] and
    everything else unchanged.  For integer time stamps the test is
    that the second comes less than 32 ms after the first. *)
Theorem throttle_drops_second_sample
        (w : World) (dom1 dom2 : Dom) (ev1 ev2 : ScrollEvent) (ops : list Op) :
  processed ev1 w = true ->
  forallb (fun o => negb (is_scroll o)) ops = true ->
  (timeStamp ev1 + of_Z 32 >? timeStamp ev2)%js = true ->
  let w1 := snd (_onScroll dom1 ev1 w) in
  let w2 := run ops w1 in
  _lastCheck (self w1) = timeStamp ev1
  /\ snd (_onScroll dom2 ev2 w2) = w2
  /\ (fst (_onScroll dom2 ev2 w2) = 1 \/ fst (_onScroll dom2 ev2 w2) = 2)
  /\ ionScroll_emit dom2 ev2 w2 = w2
  /\ (forall a b : Z,
         (- 2 ^ 53 < a + 32 < 2 ^ 53)%Z ->
         (of_Z a + of_Z 32 >? of_Z b)%js = true <-> (b - a < 32)%Z).
Proof.
  intros Hp Hops Hlt w1 w2.
  assert (H1 : _lastCheck (self w1) = timeStamp ev1).
  { unfold w1. rewrite onScroll_processed by exact Hp.
    simpl. split_tests; reflexivity. }
  assert (H2 : (_lastCheck (self w2) + of_Z 32 >? timeStamp ev2)%js = true).
  { unfold w2. rewrite run_keeps_lastCheck by exact Hops.
    now rewrite H1. }
  destruct (onScroll_throttled dom2 ev2 w2 H2) as [Hsnd Hfst].
  split; [ exact H1 | split; [ exact Hsnd | split; [ exact Hfst | split ] ] ].
  - now apply emit_fixed.
  - intros a b Hab. rewrite throttle_test_integers by exact Hab.
    apply Z.ltb_lt.
Qed.

Lemma throttle_drops_second_sample_witness :
  let w1 := snd (_onScroll (sample 50 1000 3000 0) (at_ms 100) mounted) in
  _lastCheck (self w1) = of_Z 100
  /\ snd (_onScroll (sample 50 1000 1200 0) (at_ms 131) (complete w1))
     = complete w1.
Proof.
  pose proof (throttle_drops_second_sample mounted
                (sample 50 1000 3000 0) (sample 50 1000 1200 0)
                (at_ms 100) (at_ms 131) [OpComplete]
                eq_refl eq_refl eq_refl) as H.
  split; [ exact (proj1 H) | exact (proj1 (proj2 H)) ].
Defined.

(** C8: the comparison with the threshold is strict.  For a sample
    that reaches it, a distance of exactly [0] schedules nothing, a
    distance of [-1] schedules the notification, and so does every
    distance below [0], while no distance that is not below [0]
    does. *)
Theorem crossing_is_strict
        (dom : Dom) (ev : ScrollEvent) (w : World) (h : number) :
  processed ev w = true ->
  nativeElement_scrollHeight dom = Some h ->
  truthy h = true ->
  let d := distanceFromInfinite (self w) h (getContentDimensions dom) in
  (d = of_Z 0 -> fst (_onScroll dom ev w) = 6 /\ ~ schedules dom ev w)
  /\ (d = of_Z (-1) -> fst (_onScroll dom ev w) = 5 /\ schedules dom ev w)
  /\ ((d <? of_Z 0)%js = true ->
      fst (_onScroll dom ev w) = 5 /\ schedules dom ev w)
  /\ ((d <? of_Z 0)%js = false ->
      fst (_onScroll dom ev w) = 6 /\ ~ schedules dom ev w).
Proof.
  intros Hp Hh Ht d.
  assert (E : _onScroll dom ev w =
              let w' := with_self (with_lastCheck (timeStamp ev)) w in
              if (d <? of_Z 0)%js
              then (5, dom_write EmitInfinite w') else (6, w')).
  { rewrite onScroll_processed by exact Hp. rewrite Hh. simpl.
    rewrite Ht. simpl. reflexivity. }
  unfold schedules. rewrite E. simpl.
  split; [ | split; [ | split ] ]; intros Hd; rewrite Hd; simpl;
    (split; [ reflexivity | ]);
    solve [ apply app_one_neq | reflexivity ].
Qed.

Lemma crossing_is_strict_witness :
  (fst (_onScroll (sample 50 1000 1200 0) (at_ms 100) mounted) = 6
   /\ ~ schedules (sample 50 1000 1200 0) (at_ms 100) mounted)
  /\ (fst (_onScroll (sample 50 1000 1199 0) (at_ms 100) mounted) = 5
      /\ schedules (sample 50 1000 1199 0) (at_ms 100) mounted).
Proof.
  split.
  - exact (proj1 (crossing_is_strict (sample 50 1000 1200 0) (at_ms 100)
                    mounted (of_Z 50) eq_refl eq_refl eq_refl) eq_refl).
  - exact (proj1 (proj2 (crossing_is_strict (sample 50 1000 1199 0)
                           (at_ms 100) mounted (of_Z 50)
                           eq_refl eq_refl eq_refl)) eq_refl).
Defined.

(** ** Subscriptions *)

Lemma enable_true_twice (w : World) :
  set_enabled true (set_enabled true w) = set_enabled true w.
Proof.
  unfold set_enabled, enable, _setListeners.
  destruct w as [[lc hy thr px pc init st [h | ]] obs nxt q n];
    destruct init; reflexivity.
Qed.

Lemma enable_true_listens (w : World) :
  _init (self w) = true -> _scLsn (self (set_enabled true w)) <> None.
Proof.
  unfold set_enabled, enable, _setListeners.
  destruct w as [[lc hy thr px pc init st [h | ]] obs nxt q n]; simpl;
    intros ->; simpl; discriminate.
Qed.

(** C9: enabling twice when already enabled is idempotent.  In every
    world a history can lead to, with the state enabled, the second
    [enable(true)] changes nothing at all, the state stays enabled,
    and the instance holds at most one subscription on the scroll
    stream: exactly the one in [_scLsn] once mounted, none before. *)
Theorem enable_twice_idempotent (w : World) :
  reachable w ->
  state (self w) = STATE_ENABLED ->
  let w1 := set_enabled true w in
  let w2 := set_enabled true w1 in
  w2 = w1
  /\ state (self w2) = STATE_ENABLED
  /\ (List.length (ionScroll w2) <= 1)%nat
  /\ (_init (self w) = true ->
      exists h, _scLsn (self w2) = Some h /\ ionScroll w2 = [h])
  /\ (_init (self w) = false -> ionScroll w2 = []).
Proof.
  intros Hr Hs w1 w2.
  assert (E : w2 = w1) by apply enable_true_twice.
  assert (Hinv : listening_inv w1).
  { apply (reachable_inv (step (OpSetEnabled true) w)). now constructor. }
  rewrite E. destruct Hinv as [Hobs Hnone].
  assert (Hst : state (self w1) = STATE_ENABLED).
  { unfold w1. unfold_ops. split_tests; reflexivity. }
  assert (Hi : _init (self w1) = _init (self w)).
  { unfold w1. unfold_ops. split_tests; reflexivity. }
  split; [ reflexivity | split; [ exact Hst | split; [ | split ] ] ].
  - rewrite Hobs. destruct (_scLsn (self w1)); simpl; lia.
  - intros Hinit.
    pose proof (enable_true_listens w Hinit) as Hl. fold w1 in Hl.
    destruct (_scLsn (self w1)) as [h | ] eqn:El; [ | congruence ].
    exists h. now split.
  - intros Hinit. rewrite Hobs, Hnone; [ reflexivity | congruence ].
Qed.

Lemma enable_twice_idempotent_witness :
  set_enabled true (set_enabled true mounted) = set_enabled true mounted
  /\ (List.length (ionScroll (set_enabled true (set_enabled true mounted)))
      <= 1)%nat.
Proof.
  pose proof (enable_twice_idempotent mounted
                (reachable_step OpAfterContentInit constructor reachable_new)
                eq_refl) as H.
  split; [ exact (proj1 H) | exact (proj1 (proj2 (proj2 H))) ].
Defined.

Lemma disable_unlistens (w : World) :
  listening_inv w ->
  _scLsn (self (set_enabled false w)) = None
  /\ ionScroll (set_enabled false w) = [].
Proof.
  unfold listening_inv, set_enabled, enable, _setListeners.
  destruct w as [[lc hy thr px pc init st [h | ]] obs nxt q n];
    destruct init; simpl; intros [Hobs Hnone]; subst obs;
    rewrite ?remove_single; try (split; reflexivity).
  specialize (Hnone eq_refl). discriminate Hnone.
Qed.

Lemma disable_keeps_writes (w : World) :
  domWrites (complete (set_enabled false w)) = domWrites w.
Proof.
  unfold complete, set_enabled, enable, _setListeners.
  destruct w as [[lc hy thr px pc init st [h | ]] obs nxt q n];
    destruct init; reflexivity.
Qed.

Lemma run_passive_idle (ops : list Op) (w : World) :
  ionScroll w = [] -> domWrites w = [] ->
  forallb is_passive ops = true -> run ops w = w.
Proof.
  intros Hobs Hq. unfold run.
  induction ops as [ | o ops IH]; simpl; [ reflexivity | ].
  intros H. apply andb_true_iff in H. destruct H as [Ho Hops].
  assert (E : step o w = w).
  { destruct o; try discriminate Ho; simpl.
    - now apply emit_no_observer.
    - unfold dom_flush_one. now rewrite Hq. }
  rewrite E. now apply IH.
Qed.

(** C10, as worded, does not hold in its last part.  When a crossing
    has been scheduled and the write phase has not run yet,
    [enable(false)] followed by [complete()] leaves the state enabled
    and no subscription installed, and the pending callback then finds
    the state enabled: the next write phase emits the notification. *)
Lemma pending_notification_survives_disable :
  let w := snd (_onScroll (sample 50 1000 1199 0) (at_ms 100) mounted) in
  let w' := complete (set_enabled false w) in
  domWrites w = [EmitInfinite]
  /\ state (self w') = STATE_ENABLED
  /\ _scLsn (self w') = None
  /\ ionScroll w' = []
  /\ ionInfinite w' = 0%nat
  /\ ionInfinite (dom_flush_one w') = 1%nat
  /\ state (self (dom_flush_one w')) = STATE_LOADING.
Proof. cbv zeta. repeat split. Qed.

(** C10, amended: [complete()] writes the state field and nothing
    else, in any world whatever: the state becomes enabled from any
    state, disabled included, while the subscription, the threshold
    fields, the throttle stamp, the write queue and the emissions stay
    as they were.  So after [enable(false)] followed by [complete()],
    in every world a history can lead to, the state is enabled, no
    subscription is installed, and no scroll event reaches the
    instance, so nothing new can be scheduled.  With no write pending
    the trigger cannot fire: no run of scroll events and write phases
    changes anything.  A callback that was pending before the disable
    is still run by the next write phase, which emits. *)
Theorem complete_only_sets_state :
  (forall w : World,
      complete w
      = mkWorld
          (mkInfiniteScroll (_lastCheck (self w)) (_highestY (self w))
             (_thr (self w)) (_thrPx (self w)) (_thrPc (self w))
             (_init (self w)) STATE_ENABLED (_scLsn (self w)))
          (ionScroll w) (nextSubscription w) (domWrites w) (ionInfinite w))
  /\ (forall w : World,
         state (self (complete (set_enabled false w))) = STATE_ENABLED
         /\ state (self (set_enabled false w)) = STATE_DISABLED
         /\ domWrites (complete (set_enabled false w)) = domWrites w
         /\ ionInfinite (complete (set_enabled false w)) = ionInfinite w)
  /\ (forall w : World,
         reachable w ->
         let w' := complete (set_enabled false w) in
         _scLsn (self w') = None
         /\ ionScroll w' = []
         /\ (forall dom ev, ionScroll_emit dom ev w' = w')
         /\ (domWrites w = [] ->
             forall ops, forallb is_passive ops = true -> run ops w' = w')
         /\ (domWrites w <> [] ->
             ionInfinite (dom_flush_one w') = S (ionInfinite w)
             /\ state (self (dom_flush_one w')) = STATE_LOADING)).
Proof.
  split; [ | split ].
  - intros w. reflexivity.
  - intros w. destruct (disable_state w) as [Hs Hn].
    split; [ reflexivity | split; [ exact Hs | split ] ].
    + apply disable_keeps_writes.
    + exact Hn.
  - intros w Hr.
    destruct (disable_unlistens w (proj1 (reachable_inv w Hr))) as [Hl Hobs].
    cbv zeta. split; [ exact Hl | split; [ exact Hobs | split; [ | split ] ] ].
    + intros dom ev. apply emit_no_observer. exact Hobs.
    + intros Hq ops Hops. apply run_passive_idle; [ exact Hobs | | exact Hops ].
      rewrite <- Hq. apply disable_keeps_writes.
    + intros Hq. pose proof (disable_keeps_writes w) as Hw.
      destruct (disable_state w) as [_ Hn].
      unfold dom_flush_one. rewrite Hw.
      destruct (domWrites w) as [ | [] rest]; [ now elim Hq | ].
      unfold run_callback. simpl. now rewrite Hn.
Qed.

Lemma complete_only_sets_state_witness :
  let w' := complete (set_enabled false mounted) in
  state (self w') = STATE_ENABLED
  /\ ionScroll w' = []
  /\ ionScroll_emit (sample 1000 1000 1200 200) (at_ms 100) w' = w'.
Proof.
  pose proof (proj2 (proj2 complete_only_sets_state) mounted
                (reachable_step OpAfterContentInit constructor reachable_new))
    as H.
  split; [ exact (proj1 (proj1 (proj2 complete_only_sets_state) mounted)) | ].
  split; [ exact (proj1 (proj2 H)) | ].
  exact (proj1 (proj2 (proj2 H)) (sample 1000 1000 1200 200) (at_ms 100)).
Defined.

(** ** The distance and the geometry guard *)

Lemma reloadY_spec (t : InfiniteScroll) (d : ContentDimensions) :
  reloadY t d = spec_reloadY t d.
Proof.
  unfold reloadY, spec_reloadY, thresholdMode.
  now destruct (truthy (_thrPc t)).
Qed.

Lemma write_phases_empty (n : nat) (w : World) :
  domWrites w = [] -> write_phases n w = w.
Proof.
  intros H. induction n as [ | n IH]; [ reflexivity | ].
  change (dom_flush_one (write_phases n w) = w).
  rewrite IH. unfold dom_flush_one. now rewrite H.
Qed.

Lemma loading_is_quiet (dom : Dom) (ev : ScrollEvent) (n : nat) (w : World) :
  state (self w) = STATE_LOADING ->
  domWrites w = [] ->
  write_phases n (ionScroll_emit dom ev w) = w.
Proof.
  intros Hs Hq.
  rewrite emit_fixed.
  - now apply write_phases_empty.
  - rewrite onScroll_suppressed; [ reflexivity | ].
    apply suppressed_iff. now left.
Qed.

Lemma truthy_pos (h : Z) : 0 < h -> truthy (of_Z h) = true.
Proof.
  intros H. unfold truthy, of_Z. apply negb_true_iff.
  apply not_true_iff_false. intros E. apply Qeq_bool_iff in E.
  unfold Qeq in E. simpl in E. lia.
Qed.

(** In the first scenario the sample crosses whatever the positive
    height of the directive's element. *)
Lemma scenario1_crosses (h : Z) :
  0 < h ->
  (distanceFromInfinite (self scenario1) (of_Z h)
     (getContentDimensions (sample h 1000 1200 200)) <? of_Z 0)%js = true.
Proof.
  intros H. unfold distanceFromInfinite.
  change (reloadY _ _) with (of_Z 1150).
  cbv beta iota delta [sample getContentDimensions scrollHeight scrollTop].
  change (of_Z 1200 - of_Z h)%js with (fin (inject_Z 1200 - inject_Z h)).
  destruct (fin_upper (inject_Z 1200 - inject_Z h) 1200)
    as [E1 | (r1 & E1 & H1)]; try rewrite E1.
  - split; [ reflexivity | reflexivity ].
  - unfold Qle, Qminus, Qplus, Qopp, inject_Z. cbn [Qnum Qden]. lia.
  - reflexivity.
  - change (Fin r1 - of_Z 200)%js with (fin (r1 - inject_Z 200)).
    destruct (fin_upper (r1 - inject_Z 200) 1000)
      as [E2 | (r2 & E2 & H2)]; try rewrite E2.
    + split; [ reflexivity | reflexivity ].
    + unfold Qle, Qminus, Qplus, Qopp, inject_Z in *. cbn [Qnum Qden] in *. lia.
    + reflexivity.
    + change (Fin r2 - of_Z 1150)%js with (fin (r2 - inject_Z 1150)).
      destruct (fin_negative (r2 - inject_Z 1150))
        as [E3 | (r3 & E3 & H3)]; try rewrite E3.
      * unfold Qle, Qminus, Qplus, Qopp, inject_Z in *.
        cbn [Qnum Qden] in *. lia.
      * reflexivity.
      * unfold lt, of_Z. change (inject_Z 0) with 0%Q.
        now rewrite (proj1 (Qlt_alt _ _) H3).
Qed.

Lemma scenario1_onScroll (h : Z) :
  0 < h ->
  _onScroll (sample h 1000 1200 200) (at_ms 100) scenario1
  = (5, dom_write EmitInfinite
          (with_self (with_lastCheck (of_Z 100)) scenario1)).
Proof.
  intros H. rewrite onScroll_processed by reflexivity.
  cbv zeta.
  change (nativeElement_scrollHeight (sample h 1000 1200 200))
    with (Some (of_Z h)).
  cbv beta iota. rewrite truthy_pos by exact H. cbn [negb].
  rewrite distance_with_lastCheck.
  now rewrite scenario1_crosses.
Qed.

(** C1, as worded, does not hold: the distance is not taken with the
    content height of the metrics.  With the directive's element 50
    high, a content height of 1000, a scroll height of 2100 and the
    default threshold, the worded distance is [-50], yet [_onScroll]
    finds 900, returns 6 and schedules nothing. *)
Lemma worded_distance_differs :
  let dom := sample 50 1000 2100 0 in
  let d := getContentDimensions dom in
  processed (at_ms 100) mounted = true
  /\ no_height dom = false
  /\ spec_distanceFromEnd (self mounted) d = of_Z (-50)
  /\ (spec_distanceFromEnd (self mounted) d <? of_Z 0)%js = true
  /\ distanceFromInfinite (self mounted) (of_Z 50) d = of_Z 900
  /\ _onScroll dom (at_ms 100) mounted
     = (6, with_self (with_lastCheck (of_Z 100)) mounted)
  /\ ~ schedules dom (at_ms 100) mounted.
Proof.
  cbv zeta. repeat split.
  unfold schedules. intros E. vm_compute in E. discriminate E.
Qed.

(** C1, amended: for a sample that gets past the state guard, the
    throttle and the height guard, [reloadY] is the content height
    plus its fraction in percentage mode, else plus the pixel
    distance; the distance is the scroll height minus the height of
    the directive's own element minus the scroll offset minus
    [reloadY]; and the notification is scheduled exactly when that
    distance is below 0.  The worded distance is the special case
    where the element is as high as the content.  In the scenario of
    threshold 15%, content height 1000, scroll height 1200 and offset
    200, [reloadY] is 1150, the distance is -1150 when the element is
    1000 high too, and for every positive height of the element the
    threshold is crossed, the state becomes loading and the
    notification is emitted exactly once. *)
Theorem crossing_schedules_notification :
  (forall (dom : Dom) (ev : ScrollEvent) (w : World) (h : number),
      processed ev w = true ->
      nativeElement_scrollHeight dom = Some h ->
      truthy h = true ->
      let d := getContentDimensions dom in
      let t := self w in
      reloadY t d
      = (contentHeight d
         + match thresholdMode t with
           | PercentageMode => contentHeight d * _thrPc t
           | PixelMode => _thrPx t
           end)%js
      /\ distanceFromInfinite t h d
         = (((scrollHeight d - h) - scrollTop d) - reloadY t d)%js
      /\ (schedules dom ev w <-> (distanceFromInfinite t h d <? of_Z 0)%js = true)
      /\ (h = contentHeight d ->
          distanceFromInfinite t h d = spec_distanceFromEnd t d))
  /\ (let d := getContentDimensions (sample 1000 1000 1200 200) in
      reloadY (self scenario1) d = of_Z 1150
      /\ distanceFromInfinite (self scenario1) (of_Z 1000) d = of_Z (-1150)
      /\ forall h : Z,
          0 < h ->
          let dom := sample h 1000 1200 200 in
          schedules dom (at_ms 100) scenario1
          /\ let w1 := dom_flush_one (ionScroll_emit dom (at_ms 100) scenario1) in
             state (self w1) = STATE_LOADING
             /\ ionInfinite w1 = 1%nat
             /\ domWrites w1 = []
             /\ forall dom' ev' n,
                 ionInfinite (write_phases n (ionScroll_emit dom' ev' w1))
                 = 1%nat).
Proof.
  split.
  - intros dom ev w h Hp Hh Ht d t.
    split; [ | split; [ reflexivity | split ] ].
    + unfold reloadY, thresholdMode. now destruct (truthy (_thrPc t)).
    + unfold schedules. rewrite onScroll_processed by exact Hp.
      cbv zeta. rewrite Hh, Ht. cbn [negb].
      rewrite distance_with_lastCheck. fold d. fold t.
      destruct (distanceFromInfinite t h d <? of_Z 0)%js; simpl.
      * split; reflexivity.
      * split; [ intros E; now apply app_one_neq in E | discriminate ].
    + intros ->. unfold distanceFromInfinite, spec_distanceFromEnd.
      now rewrite reloadY_spec.
  - cbv zeta. split; [ reflexivity | split; [ reflexivity | ] ].
    intros h Hh.
    pose proof (scenario1_onScroll h Hh) as E.
    rewrite (emit_one_observer _ _ scenario1 0%nat eq_refl).
    unfold schedules. rewrite E.
    repeat split.
    intros dom' ev' n. now rewrite loading_is_quiet.
Qed.

Lemma crossing_schedules_notification_witness :
  schedules (sample 50 1000 1199 0) (at_ms 100) mounted
  /\ distanceFromInfinite (self mounted) (of_Z 50)
       (getContentDimensions (sample 50 1000 1199 0)) = of_Z (-1).
Proof.
  pose proof (proj1 crossing_schedules_notification
                (sample 50 1000 1199 0) (at_ms 100) mounted (of_Z 50)
                eq_refl eq_refl eq_refl) as H.
  split; [ exact (proj2 (proj1 (proj2 (proj2 H))) eq_refl) | reflexivity ].
Defined.

(** C2, as worded, does not hold: a content height of 0 in the
    metrics does not stop the sample.  With the directive's element
    50 high and the content scrolled to its end, [_onScroll] returns
    5 and schedules the notification. *)
Lemma zero_content_height_still_schedules :
  let dom := sample 50 0 500 500 in
  contentHeight (getContentDimensions dom) = of_Z 0
  /\ _onScroll dom (at_ms 100) mounted
     = (5, dom_write EmitInfinite (with_self (with_lastCheck (of_Z 100)) mounted))
  /\ schedules dom (at_ms 100) mounted.
Proof. cbv zeta. repeat split. Qed.

(** C2, amended: the height that guards the sample is the
    [scrollHeight] of the directive's own element.  When that height
    is absent, 0 or NaN, no notification is scheduled whatever the
    content dimensions are: nothing changes but [_lastCheck], which a
    sample past the state guard and the throttle still sets before
    [_onScroll] returns 3. *)
Theorem no_height_sample_is_ignored (dom : Dom) (ev : ScrollEvent) (w : World) :
  no_height dom = true ->
  ~ schedules dom ev w
  /\ domWrites (snd (_onScroll dom ev w)) = domWrites w
  /\ same_setup w (snd (_onScroll dom ev w))
  /\ (processed ev w = true ->
      _onScroll dom ev w = (3, with_self (with_lastCheck (timeStamp ev)) w)).
Proof.
  intros Hn.
  assert (Hq : domWrites (snd (_onScroll dom ev w)) = domWrites w).
  { unfold no_height in Hn. unfold _onScroll.
    destruct (suppressed (state (self w))); [ reflexivity | ].
    destruct (_ >? _)%js; [ reflexivity | ].
    destruct (nativeElement_scrollHeight dom) as [h | ]; [ | reflexivity ].
    now rewrite Hn. }
  split; [ | split; [ exact Hq | split ] ].
  - unfold schedules. rewrite Hq. apply app_one_neq.
  - apply onScroll_same_setup.
  - intros Hp. rewrite onScroll_processed by exact Hp.
    unfold no_height in Hn. cbv zeta.
    destruct (nativeElement_scrollHeight dom) as [h | ]; [ | reflexivity ].
    now rewrite Hn.
Qed.

Lemma no_height_sample_is_ignored_witness :
  _onScroll (mkDom (Some (of_Z 0)) (mkDims (of_Z 1000) (of_Z 1200) (of_Z 200)))
            (at_ms 100) mounted
  = (3, with_self (with_lastCheck (of_Z 100)) mounted).
Proof.
  exact (proj2 (proj2 (proj2
           (no_height_sample_is_ignored
              (mkDom (Some (of_Z 0))
                     (mkDims (of_Z 1000) (of_Z 1200) (of_Z 200)))
              (at_ms 100) mounted eq_refl))) eq_refl).
Defined.

(** ** Thresholds *)

Lemma nan_pixels_never_cross (t : InfiniteScroll) (h : number)
      (d : ContentDimensions) :
  _thrPx t = NaN -> _thrPc t = of_Z 0 ->
  (distanceFromInfinite t h d <? of_Z 0)%js = false.
Proof.
  intros Hpx Hpc. unfold distanceFromInfinite, reloadY.
  rewrite Hpx, Hpc.
  replace (truthy (of_Z 0)) with false by reflexivity.
  now rewrite add_NaN_r, sub_NaN_r.
Qed.

Lemma onScroll_nan_pixels (dom : Dom) (ev : ScrollEvent) (w : World) :
  _thrPx (self w) = NaN -> _thrPc (self w) = of_Z 0 ->
  domWrites (snd (_onScroll dom ev w)) = domWrites w.
Proof.
  intros Hpx Hpc. unfold _onScroll.
  destruct (suppressed (state (self w))); [ reflexivity | ].
  destruct (_ >? _)%js; [ reflexivity | ].
  destruct (nativeElement_scrollHeight dom) as [h | ]; [ | reflexivity ].
  destruct (negb (truthy h)); [ reflexivity | ].
  rewrite distance_with_lastCheck.
  now rewrite nan_pixels_never_cross.
Qed.

Lemma emit_nan_pixels (dom : Dom) (ev : ScrollEvent) (w : World) :
  _thrPx (self w) = NaN -> _thrPc (self w) = of_Z 0 ->
  domWrites (ionScroll_emit dom ev w) = domWrites w.
Proof.
  unfold ionScroll_emit. generalize (ionScroll w) as l. intros l. revert w.
  induction l as [ | s l IH]; intros w Hpx Hpc; simpl; [ reflexivity | ].
  destruct (onScroll_same_setup dom ev w)
    as (_ & _ & _ & _ & _ & _ & _ & Epx & Epc).
  rewrite IH by congruence.
  now apply onScroll_nan_pixels.
Qed.

(** While the pixel field is NaN and nothing is pending, no operation
    short of setting the threshold again emits or schedules. *)
Lemma step_nan_pixels (o : Op) (w : World) :
  is_set_threshold o = false ->
  _thrPx (self w) = NaN -> _thrPc (self w) = of_Z 0 -> domWrites w = [] ->
  _thrPx (self (step o w)) = NaN
  /\ _thrPc (self (step o w)) = of_Z 0
  /\ domWrites (step o w) = []
  /\ ionInfinite (step o w) = ionInfinite w.
Proof.
  intros Ho Hpx Hpc Hq. destruct o as [ v | b | | | | dom ev | ];
    try discriminate Ho; simpl.
  - unfold set_enabled, enable, _setListeners.
    destruct w as [[lc hy thr px pc init st [h | ]] obs nxt q n];
      destruct init, b; simpl in *; auto.
  - auto.
  - unfold ngAfterContentInit, _setListeners.
    destruct w as [[lc hy thr px pc init [ | | ] [h | ]] obs nxt q n];
      simpl in *; auto.
  - unfold ngOnDestroy, _setListeners.
    destruct w as [[lc hy thr px pc init st [h | ]] obs nxt q n];
      destruct init; simpl in *; auto.
  - destruct (emit_same_setup dom ev w)
      as (_ & _ & En & _ & _ & _ & _ & Epx & Epc).
    rewrite emit_nan_pixels by assumption.
    repeat split; congruence.
  - unfold dom_flush_one. rewrite Hq. auto.
Qed.

Lemma run_nan_pixels (ops : list Op) (w : World) :
  forallb (fun o => negb (is_set_threshold o)) ops = true ->
  _thrPx (self w) = NaN -> _thrPc (self w) = of_Z 0 -> domWrites w = [] ->
  ionInfinite (run ops w) = ionInfinite w /\ domWrites (run ops w) = [].
Proof.
  unfold run. revert w.
  induction ops as [ | o ops IH]; intros w Hops Hpx Hpc Hq; simpl in *.
  - now split.
  - apply andb_true_iff in Hops. destruct Hops as [Ho Hops].
    apply negb_true_iff in Ho.
    destruct (step_nan_pixels o w Ho Hpx Hpc Hq) as (Hpx' & Hpc' & Hq' & Hn').
    destruct (IH (step o w) Hops Hpx' Hpc' Hq') as [IHn IHq].
    split; [ congruence | exact IHq ].
Qed.

(** C3, as worded, does not hold for a malformed string with a
    percent sign.  After [threshold = "abc%"] the pixel field is 0,
    not NaN, and the fraction NaN is falsy, so the sample of the first
    scenario is compared with a pixel distance of 0: it crosses, and
    the notification is emitted. *)
Lemma malformed_percent_still_fires :
  let w := set_threshold "abc%" mounted in
  let dom := sample 1000 1000 1200 200 in
  parseFloat "abc%" = NaN
  /\ _thrPx (self w) = of_Z 0
  /\ _thrPc (self w) = NaN
  /\ schedules dom (at_ms 100) w
  /\ ionInfinite (dom_flush_one (ionScroll_emit dom (at_ms 100) w)) = 1%nat.
Proof. cbv zeta. repeat split. Qed.

(** C3, amended: [threshold = val] never fails.  For a malformed [val]
    without a percent sign the pixel field is NaN and the fraction 0:
    every later comparison is false, no sample schedules a
    notification, and with nothing pending no history emits one until
    the threshold is set again.  For a malformed [val] with a percent
    sign the fraction is NaN and the pixel field 0: the pixel branch
    is taken and the distance is the one of the threshold [0px]. *)
Theorem malformed_threshold (val : string) (w : World) :
  is_nan (parseFloat val) = true ->
  let w' := set_threshold val w in
  ((indexOf val "%" >? -1)%Z = false ->
   _thrPx (self w') = NaN
   /\ _thrPc (self w') = of_Z 0
   /\ (forall h d, (distanceFromInfinite (self w') h d <? of_Z 0)%js = false)
   /\ (forall dom ev, ~ schedules dom ev w')
   /\ (forall ops,
          forallb (fun o => negb (is_set_threshold o)) ops = true ->
          domWrites w = [] ->
          ionInfinite (run ops w') = ionInfinite w))
  /\ ((indexOf val "%" >? -1)%Z = true ->
      _thrPx (self w') = of_Z 0
      /\ _thrPc (self w') = NaN
      /\ thresholdMode (self w') = PixelMode
      /\ (forall d, reloadY (self w') d = (contentHeight d + of_Z 0)%js)
      /\ (forall h d,
             distanceFromInfinite (self w') h d
             = distanceFromInfinite (self (set_threshold "0px" w)) h d)).
Proof.
  intros Hnan w'.
  destruct (parseFloat val) eqn:Hval; try discriminate Hnan. clear Hnan.
  split; intros Hpc; unfold w', set_threshold; rewrite Hpc, Hval.
  - assert (Hq : forall dom ev,
               domWrites (snd (_onScroll dom ev
                 (with_self (with_threshold val NaN (of_Z 0)) w)))
               = domWrites w).
    { intros dom ev. now rewrite onScroll_nan_pixels. }
    split; [ reflexivity | split; [ reflexivity | split; [ | split ] ] ].
    + intros h d. now apply nan_pixels_never_cross.
    + intros dom ev. unfold schedules. rewrite Hq. apply app_one_neq.
    + intros ops Hops Hw.
      now destruct (run_nan_pixels ops
                      (with_self (with_threshold val NaN (of_Z 0)) w)
                      Hops eq_refl eq_refl Hw).
  - repeat split.
Qed.

Lemma malformed_threshold_witness :
  let w' := set_threshold "abc" mounted in
  _thrPx (self w') = NaN
  /\ ionInfinite
       (run [OpScroll (sample 1000 1000 1200 200) (at_ms 100); OpWritePhase]
            w') = 0%nat.
Proof.
  pose proof (proj1 (malformed_threshold "abc" mounted eq_refl) eq_refl) as H.
  split; [ exact (proj1 H) | ].
  exact (proj2 (proj2 (proj2 (proj2 H)))
           [OpScroll (sample 1000 1000 1200 200) (at_ms 100); OpWritePhase]
           eq_refl eq_refl).
Defined.






(** ** Further properties of the component *)

(** Case analysis on every field an operation tests. *)
Ltac case_world w :=
  let st := fresh "st" in
  let l := fresh "l" in
  let init := fresh "init" in
  destruct w as [[? ? ? ? ? init st l] ? ? ? ?];
  destruct init, st, l; simpl in *.

Lemma step_suppressed (o : Op) (w : World) :
  rearms o = false ->
  suppressed (state (self w)) = true ->
  suppressed (state (self (step o w))) = true
  /\ ionInfinite (step o w) = ionInfinite w.
Proof.
  intros Ho Hs. destruct o as [ v | [ | ] | | | | dom ev | ];
    try discriminate Ho; simpl.
  - unfold set_threshold. destruct (_ >? _)%Z; simpl; auto.
  - unfold set_enabled, enable, _setListeners. case_world w; auto.
  - unfold ngAfterContentInit, _setListeners. case_world w; auto.
  - unfold ngOnDestroy, _setListeners. case_world w; auto.
  - destruct (emit_same_setup dom ev w) as (_ & _ & En & Est & _).
    rewrite Est, En. auto.
  - unfold dom_flush_one, run_callback.
    destruct w as [[lc hy thr px pc init st l] obs nxt [ | [] rest] n];
      destruct st; simpl in *; auto; discriminate Hs.
Qed.

Lemma step_emits_once (o : Op) (w : World) :
  rearms o = false ->
  ionInfinite (step o w) = ionInfinite w
  \/ (ionInfinite (step o w) = S (ionInfinite w)
      /\ suppressed (state (self (step o w))) = true).
Proof.
  intros Ho. destruct o as [ v | [ | ] | | | | dom ev | ];
    try discriminate Ho; simpl.
  - left. unfold set_threshold. destruct (_ >? _)%Z; reflexivity.
  - left. unfold set_enabled, enable, _setListeners. case_world w; reflexivity.
  - left. unfold ngAfterContentInit, _setListeners. case_world w; reflexivity.
  - left. unfold ngOnDestroy, _setListeners. case_world w; reflexivity.
  - left. now destruct (emit_same_setup dom ev w) as (_ & _ & En & _).
  - unfold dom_flush_one, run_callback.
    destruct w as [[lc hy thr px pc init st l] obs nxt [ | [] rest] n];
      destruct st; simpl; auto.
Qed.

Lemma run_suppressed (ops : list Op) (w : World) :
  forallb (fun o => negb (rearms o)) ops = true ->
  suppressed (state (self w)) = true ->
  suppressed (state (self (run ops w))) = true
  /\ ionInfinite (run ops w) = ionInfinite w.
Proof.
  unfold run. revert w.
  induction ops as [ | o ops IH]; intros w Hops Hs; simpl in *.
  - now split.
  - apply andb_true_iff in Hops. destruct Hops as [Ho Hops].
    apply negb_true_iff in Ho.
    destruct (step_suppressed o w Ho Hs) as [Hs' Hn'].
    destruct (IH (step o w) Hops Hs') as [IHs IHn].
    split; [ exact IHs | congruence ].
Qed.

(** X3: between two calls that put the state back to enabled
    ([complete()] or [enable(true)]) at most one notification is
    emitted, whatever is scrolled, flushed, disabled, mounted or
    destroyed meanwhile; none at all when the state was loading or
    disabled to begin with; and once it has been emitted the state is
    loading or disabled. *)
Theorem one_emission_per_load_cycle (ops : list Op) (w : World) :
  forallb (fun o => negb (rearms o)) ops = true ->
  (ionInfinite (run ops w) <= S (ionInfinite w))%nat
  /\ (ionInfinite w <= ionInfinite (run ops w))%nat
  /\ (suppressed (state (self w)) = true ->
      ionInfinite (run ops w) = ionInfinite w)
  /\ (ionInfinite (run ops w) = S (ionInfinite w) ->
      suppressed (state (self (run ops w))) = true).
Proof.
  intros Hops.
  assert (Hcases : ionInfinite (run ops w) = ionInfinite w
                   \/ (ionInfinite (run ops w) = S (ionInfinite w)
                       /\ suppressed (state (self (run ops w))) = true)).
  { revert w. induction ops as [ | o ops IH]; intros w; [ now left | ].
    simpl in Hops. apply andb_true_iff in Hops. destruct Hops as [Ho Hops].
    apply negb_true_iff in Ho.
    change (run (o :: ops) w) with (run ops (step o w)).
    destruct (step_emits_once o w Ho) as [E | [E Hs]].
    - rewrite <- E. now apply IH.
    - right. destruct (run_suppressed ops (step o w) Hops Hs) as [Hs' Hn'].
      split; [ congruence | exact Hs' ]. }
  split; [ | split; [ | split ] ].
  - destruct Hcases as [E | [E _]]; lia.
  - destruct Hcases as [E | [E _]]; lia.
  - intros Hs. now apply run_suppressed.
  - intros E. destruct Hcases as [E' | [_ Hs]]; [ lia | exact Hs ].
Qed.

Lemma one_emission_per_load_cycle_witness :
  let w := run [OpScroll (sample 50 1000 1199 0) (at_ms 100);
                OpScroll (sample 50 1000 1199 0) (at_ms 200);
                OpWritePhase; OpWritePhase;
                OpScroll (sample 50 1000 1199 0) (at_ms 300); OpWritePhase]
               mounted in
  (ionInfinite w <= 1)%nat /\ ionInfinite w = 1%nat.
Proof.
  pose proof (one_emission_per_load_cycle
                [OpScroll (sample 50 1000 1199 0) (at_ms 100);
                 OpScroll (sample 50 1000 1199 0) (at_ms 200);
                 OpWritePhase; OpWritePhase;
                 OpScroll (sample 50 1000 1199 0) (at_ms 300); OpWritePhase]
                mounted eq_refl) as H.
  split; [ exact (proj1 H) | reflexivity ].
Defined.

Lemma step_disabled_unlistened (o : Op) (w : World) :
  listening_inv w ->
  (state (self w) = STATE_DISABLED -> _scLsn (self w) = None) ->
  state (self (step o w)) = STATE_DISABLED -> _scLsn (self (step o w)) = None.
Proof.
  intros [_ Hnone] H. destruct o as [ v | [ | ] | | | | dom ev | ]; simpl.
  - unfold set_threshold. destruct (_ >? _)%Z; exact H.
  - unfold set_enabled, enable, _setListeners. case_world w; congruence.
  - unfold set_enabled, enable, _setListeners. case_world w; auto.
  - simpl. discriminate.
  - unfold ngAfterContentInit, _setListeners. case_world w; auto; congruence.
  - unfold ngOnDestroy, _setListeners. case_world w; auto.
  - destruct (emit_same_setup dom ev w) as (_ & _ & _ & Est & Esc & _).
    rewrite Est, Esc. exact H.
  - unfold dom_flush_one, run_callback.
    destruct w as [[lc hy thr px pc init st l] obs nxt [ | [] rest] n];
      destruct st; simpl in *; auto; discriminate.
Qed.

Lemma reachable_disabled_unlistened (w : World) :
  reachable w -> state (self w) = STATE_DISABLED -> _scLsn (self w) = None.
Proof.
  intros Hr. induction Hr as [ | o w Hr IH]; [ discriminate | ].
  apply step_disabled_unlistened; [ apply (reachable_inv w Hr) | exact IH ].
Qed.

(** X1: a disabled instance never listens.  In every world a history
    can lead to, while the state is disabled no subscription is kept
    and the scroll stream has no observer, so no scroll event can
    reach [_onScroll]. *)
Theorem disabled_never_listens (w : World) :
  reachable w ->
  state (self w) = STATE_DISABLED ->
  _scLsn (self w) = None
  /\ ionScroll w = []
  /\ forall dom ev, ionScroll_emit dom ev w = w.
Proof.
  intros Hr Hd.
  pose proof (reachable_disabled_unlistened w Hr Hd) as Hl.
  destruct (reachable_inv w Hr) as [[Hobs _] _]. rewrite Hl in Hobs.
  split; [ exact Hl | split; [ exact Hobs | ] ].
  intros dom ev. now apply emit_no_observer.
Qed.

Lemma disabled_never_listens_witness :
  ionScroll (run [OpSetEnabled false; OpAfterContentInit] constructor) = [].
Proof.
  exact (proj1 (proj2
           (disabled_never_listens
              (run [OpSetEnabled false; OpAfterContentInit] constructor)
              (reachable_step OpAfterContentInit _
                 (reachable_step (OpSetEnabled false) _ reachable_new))
              eq_refl))).
Defined.

(** X2: a subscription is only ever held by a mounted instance, and
    only one.  In every world a history can lead to, the scroll stream
    has at most one observer of this instance; when [_scLsn] holds a
    handle, [ngAfterContentInit] has run, that handle is the single
    observer, and the state is not disabled. *)
Theorem listening_needs_mount (w : World) :
  reachable w ->
  (List.length (ionScroll w) <= 1)%nat
  /\ forall h,
      _scLsn (self w) = Some h ->
      _init (self w) = true
      /\ ionScroll w = [h]
      /\ state (self w) <> STATE_DISABLED.
Proof.
  intros Hr. destruct (reachable_inv w Hr) as [[Hobs Hnone] _].
  split.
  - rewrite Hobs. destruct (_scLsn (self w)); simpl; lia.
  - intros h Hh. rewrite Hh in Hobs. split; [ | split ].
    + destruct (_init (self w)); [ reflexivity | ].
      specialize (Hnone eq_refl). congruence.
    + exact Hobs.
    + intros Hd. pose proof (reachable_disabled_unlistened w Hr Hd). congruence.
Qed.

Lemma listening_needs_mount_witness :
  _init (self mounted) = true /\ ionScroll mounted = [0%nat].
Proof.
  pose proof (proj2 (listening_needs_mount mounted
                (reachable_step OpAfterContentInit constructor reachable_new))
                0%nat eq_refl) as H.
  split; [ exact (proj1 H) | exact (proj1 (proj2 H)) ].
Defined.

Lemma write_phases_succ_r (n : nat) (w : World) :
  write_phases (S n) w = write_phases n (dom_flush_one w).
Proof. unfold write_phases. apply Nat.iter_succ_r. Qed.

Lemma drain_suppressed (n : nat) (w : World) :
  suppressed (state (self w)) = true ->
  List.length (domWrites w) = n ->
  domWrites (write_phases n w) = []
  /\ self (write_phases n w) = self w
  /\ ionInfinite (write_phases n w) = ionInfinite w.
Proof.
  revert w. induction n as [ | n IH]; intros w Hs Hlen.
  - destruct (domWrites w) eqn:E; [ | discriminate Hlen ]. now repeat split.
  - rewrite write_phases_succ_r.
    destruct w as [t obs nxt [ | [] rest] k]; [ discriminate Hlen | ].
    simpl in Hs, Hlen. injection Hlen as Hlen.
    assert (E : dom_flush_one (mkWorld t obs nxt (EmitInfinite :: rest) k)
                = mkWorld t obs nxt rest k).
    { unfold dom_flush_one, run_callback. simpl.
      unfold suppressed in Hs. destruct (state t); simpl in *;
        solve [ reflexivity | discriminate Hs ]. }
    rewrite E. apply (IH (mkWorld t obs nxt rest k)); assumption.
Qed.

Lemma write_phases_keeps_observers (n : nat) (v : World) :
  ionScroll (write_phases n v) = ionScroll v.
Proof.
  induction n as [ | m IH]; [ reflexivity | ].
  change (ionScroll (dom_flush_one (write_phases m v)) = ionScroll v).
  rewrite <- IH. unfold dom_flush_one, run_callback.
  destruct (domWrites (write_phases m v)) as [ | [] r]; [ reflexivity | ].
  simpl. destruct (state (self (write_phases m v))); reflexivity.
Qed.

(** X4: however many crossings were scheduled before the write phase
    ran, they emit once.  From a state that is neither loading nor
    disabled, running as many write phases as there are pending
    callbacks empties the queue, sets the state to loading and calls
    [ionInfinite.emit] exactly once. *)
Theorem pending_callbacks_emit_once (w : World) :
  suppressed (state (self w)) = false ->
  domWrites w <> [] ->
  let w' := write_phases (List.length (domWrites w)) w in
  ionInfinite w' = S (ionInfinite w)
  /\ state (self w') = STATE_LOADING
  /\ domWrites w' = []
  /\ ionScroll w' = ionScroll w
  /\ _lastCheck (self w') = _lastCheck (self w).
Proof.
  intros Hs Hq.
  destruct w as [t obs nxt [ | [] rest] k]; [ now elim Hq | ].
  cbn [domWrites List.length]. rewrite write_phases_succ_r.
  assert (E : dom_flush_one (mkWorld t obs nxt (EmitInfinite :: rest) k)
              = mkWorld (with_state STATE_LOADING t) obs nxt rest (S k)).
  { unfold dom_flush_one, run_callback. simpl in *.
    unfold suppressed in Hs. destruct (state t); simpl in *;
      solve [ reflexivity | discriminate Hs ]. }
  rewrite E. cbv zeta.
  destruct (drain_suppressed (List.length rest)
              (mkWorld (with_state STATE_LOADING t) obs nxt rest (S k))
              eq_refl eq_refl) as (Hd & Hself & Hn).
  rewrite Hn. split; [ reflexivity | ].
  split; [ now rewrite Hself | ].
  split; [ exact Hd | ].
  split; [ | now rewrite Hself ].
  now rewrite write_phases_keeps_observers.
Qed.

Lemma pending_callbacks_emit_once_witness :
  let w := run [OpScroll (sample 50 1000 1199 0) (at_ms 100);
                OpScroll (sample 50 1000 1199 0) (at_ms 200)] mounted in
  List.length (domWrites w) = 2%nat
  /\ ionInfinite (write_phases 2 w) = 1%nat.
Proof.
  split; [ reflexivity | ].
  exact (proj1 (pending_callbacks_emit_once
                  (run [OpScroll (sample 50 1000 1199 0) (at_ms 100);
                        OpScroll (sample 50 1000 1199 0) (at_ms 200)] mounted)
                  eq_refl
                  (fun E => eq_ind (A := list WriteCallback)
                              [EmitInfinite; EmitInfinite]
                              (fun l => match l with [] => False | _ => True end)
                              I [] E))).
Defined.

Lemma destroy_unlistens (w : World) :
  listening_inv w ->
  _scLsn (self (ngOnDestroy w)) = None /\ ionScroll (ngOnDestroy w) = [].
Proof.
  unfold listening_inv, ngOnDestroy, _setListeners.
  destruct w as [[lc hy thr px pc init st [h | ]] obs nxt q n];
    destruct init; simpl; intros [Hobs Hnone]; subst obs;
    rewrite ?remove_single; try (split; reflexivity).
  specialize (Hnone eq_refl). discriminate Hnone.
Qed.

Lemma destroy_frame (w : World) :
  state (self (ngOnDestroy w)) = state (self w)
  /\ domWrites (ngOnDestroy w) = domWrites w
  /\ ionInfinite (ngOnDestroy w) = ionInfinite w
  /\ _init (self (ngOnDestroy w)) = _init (self w).
Proof.
  unfold ngOnDestroy, _setListeners. case_world w; repeat split.
Qed.



Lemma enable_true_handle (w : World) :
  listening_inv w ->
  _init (self w) = true ->
  exists h,
    _scLsn (self (set_enabled true w)) = Some h
    /\ ionScroll (set_enabled true w) = [h]
    /\ (_scLsn (self w) = None -> h = nextSubscription w)
    /\ (forall h0, _scLsn (self w) = Some h0 -> h = h0).
Proof.
  unfold listening_inv, set_enabled, enable, _setListeners.
  destruct w as [[lc hy thr px pc init st [h | ]] obs nxt q n]; simpl;
    intros [Hobs _] ->; subst obs; simpl.
  - exists h. repeat split; congruence.
  - exists nxt. repeat split; congruence.
Qed.

(** X6: [enable(true)] on a mounted instance always ends with exactly
    one observer on the scroll stream, whatever came before.  The
    handle in [_scLsn] is the one already held when there was one, and
    a fresh one from the stream otherwise; in particular an instance
    that was destroyed listens again once it is enabled. *)
Theorem enable_true_listens_once (w : World) :
  reachable w ->
  _init (self w) = true ->
  (exists h,
      _scLsn (self (set_enabled true w)) = Some h
      /\ ionScroll (set_enabled true w) = [h]
      /\ (_scLsn (self w) = None -> h = nextSubscription w)
      /\ (forall h0, _scLsn (self w) = Some h0 -> h = h0))
  /\ state (self (set_enabled true w)) = STATE_ENABLED
  /\ (let v := set_enabled true (ngOnDestroy w) in
      _scLsn (self v) = Some (nextSubscription w)
      /\ ionScroll v = [nextSubscription w]).
Proof.
  intros Hr Hi. split; [ | split ].
  - apply enable_true_handle; [ apply (reachable_inv w Hr) | exact Hi ].
  - unfold set_enabled, enable, _setListeners. case_world w; reflexivity.
  - assert (Hr' : reachable (ngOnDestroy w)) by (apply (reachable_step OpOnDestroy); exact Hr).
    destruct (destroy_unlistens w (proj1 (reachable_inv w Hr))) as [Hl _].
    destruct (destroy_frame w) as (_ & _ & _ & Hi').
    assert (Hn : nextSubscription (ngOnDestroy w) = nextSubscription w).
    { unfold ngOnDestroy, _setListeners. case_world w; reflexivity. }
    destruct (enable_true_handle (ngOnDestroy w)
                (proj1 (reachable_inv _ Hr')) (eq_trans Hi' Hi))
      as (h & Hh & Hobs & Hfresh & _).
    cbv zeta. rewrite Hh, Hobs, (Hfresh Hl), Hn. now split.
Qed.

Lemma enable_true_listens_once_witness :
  ionScroll (set_enabled true (ngOnDestroy mounted)) = [1%nat].
Proof.
  exact (proj2 (proj2 (proj2
           (enable_true_listens_once mounted
              (reachable_step OpAfterContentInit constructor reachable_new)
              eq_refl)))).
Defined.

(** X7: [ngAfterContentInit()] marks the instance as mounted and
    subscribes unless the state is disabled.  In every world a history
    can lead to, afterwards a disabled instance holds no subscription,
    any other holds exactly one, the state is what it was, and running
    the hook again changes nothing. *)
Theorem mount_subscribes_unless_disabled (w : World) :
  reachable w ->
  let w' := ngAfterContentInit w in
  _init (self w') = true
  /\ state (self w') = state (self w)
  /\ (state (self w) = STATE_DISABLED ->
      _scLsn (self w') = None /\ ionScroll w' = [])
  /\ (state (self w) <> STATE_DISABLED ->
      exists h, _scLsn (self w') = Some h /\ ionScroll w' = [h])
  /\ ngAfterContentInit w' = w'.
Proof.
  intros Hr. destruct (reachable_inv w Hr) as [[Hobs Hnone] _]. clear Hr.
  unfold ngAfterContentInit, _setListeners. cbv zeta.
  destruct w as [[lc hy thr px pc init st [h | ]] obs nxt q n];
    simpl in Hobs, Hnone; subst obs;
    destruct init; try (specialize (Hnone eq_refl); discriminate Hnone);
    destruct st; simpl;
    try (destruct (Nat.eq_dec _ _); [ | congruence ]);
    (split; [ reflexivity | split; [ reflexivity | split; [ | split ] ] ]);
    try reflexivity;
    try (intros H; solve [ discriminate H | now elim H | now split ]);
    intros _; eexists; split; reflexivity.
Qed.

Lemma mount_subscribes_unless_disabled_witness :
  ionScroll (ngAfterContentInit (set_enabled false constructor)) = []
  /\ ionScroll (ngAfterContentInit constructor) = [0%nat].
Proof.
  split.
  - exact (proj2 (proj1 (proj2 (proj2
             (mount_subscribes_unless_disabled (set_enabled false constructor)
                (reachable_step (OpSetEnabled false) constructor reachable_new))))
             eq_refl)).
  - pose proof (mount_subscribes_unless_disabled constructor reachable_new) as H.
    reflexivity.
Defined.

(** X8: the throttle window is closed on the left and open on the
    right.  With integer time stamps, which binary64 holds exactly,
    and a state that is neither loading nor disabled, [_onScroll]
    returns 2 exactly when the sample comes less than 32 ms after the
    last processed one; a sample exactly 32 ms later, or any later
    one, is processed. *)
Theorem throttle_boundary
        (dom : Dom) (ev : ScrollEvent) (w : World) (a b : Z) :
  suppressed (state (self w)) = false ->
  _lastCheck (self w) = of_Z a ->
  timeStamp ev = of_Z b ->
  (- 2 ^ 53 < a + 32 < 2 ^ 53)%Z ->
  (fst (_onScroll dom ev w) = 2 <-> (b < a + 32)%Z)
  /\ (processed ev w = true <-> (a + 32 <= b)%Z).
Proof.
  intros Hs Ha Hb Hab.
  assert (Hgt : (_lastCheck (self w) + of_Z 32 >? timeStamp ev)%js
                = (b - a <? 32)%Z).
  { rewrite Ha, Hb. now apply throttle_test_integers. }
  split.
  - unfold _onScroll. rewrite Hs, Hgt.
    destruct (Z.ltb_spec (b - a) 32) as [H | H].
    + simpl. split; [ intros _; lia | reflexivity ].
    + split; [ | intros H'; lia ].
      destruct (nativeElement_scrollHeight dom) as [h | ]; simpl;
        [ destruct (negb (truthy h)); simpl;
          [ | destruct (_ <? _)%js; simpl ] | ]; discriminate.
  - unfold processed. rewrite Hs, Hgt. simpl.
    destruct (Z.ltb_spec (b - a) 32) as [H | H]; simpl.
    + split; [ discriminate | lia ].
    + split; [ intros _; lia | reflexivity ].
Qed.

Lemma throttle_boundary_witness :
  processed (at_ms 132) (snd (_onScroll (sample 50 1000 3000 0) (at_ms 100) mounted))
  = true
  /\ fst (_onScroll (sample 50 1000 3000 0) (at_ms 131)
            (snd (_onScroll (sample 50 1000 3000 0) (at_ms 100) mounted))) = 2.
Proof.
  split.
  - exact (proj2 (proj2 (throttle_boundary (sample 50 1000 3000 0) (at_ms 132)
                    (snd (_onScroll (sample 50 1000 3000 0) (at_ms 100) mounted))
                    100 132 eq_refl eq_refl eq_refl (conj eq_refl eq_refl)))
             (fun E => match E in (_ = c) return
                          match c with Gt => False | _ => True end
                    with eq_refl => I end)).
  - exact (proj2 (proj1 (throttle_boundary (sample 50 1000 3000 0) (at_ms 131)
                    (snd (_onScroll (sample 50 1000 3000 0) (at_ms 100) mounted))
                    100 131 eq_refl eq_refl eq_refl (conj eq_refl eq_refl)))
             eq_refl).
Defined.

(** X9: a sample whose time stamp is not a number gets past the
    throttle and is stored as the last check; from then on the
    throttle test is false for every sample, however close in time,
    so each one is processed until a sample with a proper time stamp
    has been. *)
Theorem nan_time_stamp_opens_throttle
        (dom : Dom) (ev : ScrollEvent) (w : World) :
  suppressed (state (self w)) = false ->
  timeStamp ev = NaN ->
  processed ev w = true
  /\ _lastCheck (self (snd (_onScroll dom ev w))) = NaN
  /\ forall ops ev2,
      forallb (fun o => negb (is_scroll o)) ops = true ->
      let w2 := run ops (snd (_onScroll dom ev w)) in
      suppressed (state (self w2)) = false ->
      processed ev2 w2 = true.
Proof.
  intros Hs Ht.
  assert (Hp : processed ev w = true).
  { unfold processed. rewrite Hs, Ht.
    destruct (_lastCheck (self w)); reflexivity. }
  assert (Hl : _lastCheck (self (snd (_onScroll dom ev w))) = NaN).
  { rewrite onScroll_processed by exact Hp. rewrite <- Ht.
    simpl. split_tests; reflexivity. }
  split; [ exact Hp | split; [ exact Hl | ] ].
  intros ops ev2 Hops w2 Hs2.
  unfold processed. rewrite Hs2. unfold w2.
  rewrite run_keeps_lastCheck by exact Hops. rewrite Hl.
  destruct (timeStamp ev2); reflexivity.
Qed.

Lemma nan_time_stamp_opens_throttle_witness :
  let w1 := snd (_onScroll (sample 50 1000 3000 0) (mkScrollEvent NaN) mounted) in
  _lastCheck (self w1) = NaN
  /\ processed (at_ms 1) w1 = true.
Proof.
  pose proof (nan_time_stamp_opens_throttle (sample 50 1000 3000 0)
                (mkScrollEvent NaN) mounted eq_refl eq_refl) as H.
  split; [ exact (proj1 (proj2 H)) | ].
  exact (proj2 (proj2 H) [] (at_ms 1) eq_refl eq_refl).
Defined.

Lemma step_keeps_threshold (o : Op) (w : World) :
  is_set_threshold o = false ->
  _thr (self (step o w)) = _thr (self w)
  /\ _thrPx (self (step o w)) = _thrPx (self w)
  /\ _thrPc (self (step o w)) = _thrPc (self w).
Proof.
  intros Ho. destruct o as [ v | b | | | | dom ev | ];
    try discriminate Ho; simpl.
  - unfold set_enabled, enable, _setListeners.
    destruct b; case_world w; repeat split.
  - repeat split.
  - unfold ngAfterContentInit, _setListeners. case_world w; repeat split.
  - unfold ngOnDestroy, _setListeners. case_world w; repeat split.
  - destruct (emit_same_setup dom ev w)
      as (_ & _ & _ & _ & _ & _ & Et & Epx & Epc).
    now repeat split.
  - unfold dom_flush_one, run_callback.
    destruct w as [[lc hy thr px pc init st l] obs nxt [ | [] rest] n];
      destruct st; repeat split.
Qed.

(** X10: only the setter changes the threshold.  Over any history
    that does not assign [threshold], the string and the two parsed
    fields stay what they were; so after [threshold = val] the getter
    returns [val] itself, malformed or not, until the next assignment,
    and of two assignments in a row only the second counts. *)
Theorem threshold_changes_only_by_setter (ops : list Op) (w : World) :
  forallb (fun o => negb (is_set_threshold o)) ops = true ->
  (_thr (self (run ops w)) = _thr (self w)
   /\ _thrPx (self (run ops w)) = _thrPx (self w)
   /\ _thrPc (self (run ops w)) = _thrPc (self w))
  /\ (forall val, get_threshold (run ops (set_threshold val w)) = val)
  /\ (forall v1 v2,
         set_threshold v2 (set_threshold v1 w) = set_threshold v2 w).
Proof.
  intros Hops.
  assert (Hkeep : forall v,
             _thr (self (run ops v)) = _thr (self v)
             /\ _thrPx (self (run ops v)) = _thrPx (self v)
             /\ _thrPc (self (run ops v)) = _thrPc (self v)).
  { unfold run. induction ops as [ | o ops IH]; intros v; simpl in *.
    - repeat split.
    - apply andb_true_iff in Hops. destruct Hops as [Ho Hops].
      apply negb_true_iff in Ho.
      destruct (step_keeps_threshold o v Ho) as (E1 & E2 & E3).
      destruct (IH Hops (step o v)) as (F1 & F2 & F3).
      repeat split; congruence. }
  split; [ apply Hkeep | split ].
  - intros val. unfold get_threshold.
    destruct (Hkeep (set_threshold val w)) as (E & _). rewrite E.
    unfold set_threshold. destruct (_ >? _)%Z; reflexivity.
  - intros v1 v2. unfold set_threshold.
    destruct (indexOf v1 "%" >? -1)%Z, (indexOf v2 "%" >? -1)%Z; reflexivity.
Qed.

Lemma threshold_changes_only_by_setter_witness :
  get_threshold
    (run [OpAfterContentInit; OpScroll (sample 50 1000 1199 0) (at_ms 100);
          OpWritePhase; OpComplete; OpSetEnabled false]
         (set_threshold "abc" constructor)) = "abc".
Proof.
  exact (proj1 (proj2 (threshold_changes_only_by_setter
           [OpAfterContentInit; OpScroll (sample 50 1000 1199 0) (at_ms 100);
            OpWritePhase; OpComplete; OpSetEnabled false]
           constructor eq_refl)) "abc").
Defined.

(** X11: on an instance that is listening, or not mounted yet,
    [enable(true)] does exactly what [complete()] does: it puts the
    state back to enabled and touches nothing else.  Only on a mounted
    instance without a subscription does it also subscribe. *)
Theorem enable_true_acts_as_complete (w : World) :
  _init (self w) = false \/ _scLsn (self w) <> None ->
  set_enabled true w = complete w.
Proof.
  unfold set_enabled, enable, _setListeners, complete.
  destruct w as [[lc hy thr px pc init st [h | ]] obs nxt q n];
    destruct init; simpl; intros [H | H]; try reflexivity;
    solve [ discriminate H | now elim H ].
Qed.

Lemma enable_true_acts_as_complete_witness :
  let w := dom_flush_one
             (snd (_onScroll (sample 50 1000 1199 0) (at_ms 100) mounted)) in
  state (self w) = STATE_LOADING /\ set_enabled true w = complete w.
Proof.
  split; [ reflexivity | ].
  exact (enable_true_acts_as_complete
           (dom_flush_one
              (snd (_onScroll (sample 50 1000 1199 0) (at_ms 100) mounted)))
           (or_intror (fun E : Some 0%nat = None =>
                         eq_ind (Some 0%nat)
                           (fun o => match o with Some _ => True | None => False end)
                           I None E))).
Defined.

Lemma onScroll_queue_grows (dom : Dom) (ev : ScrollEvent) (w : World) :
  exists k, domWrites (snd (_onScroll dom ev w))
            = (domWrites w ++ repeat EmitInfinite k)%list.
Proof.
  unfold _onScroll. split_tests;
    solve [ exists 0%nat; simpl; now rewrite List.app_nil_r
          | exists 1%nat; reflexivity ].
Qed.

Lemma emit_queue_grows (dom : Dom) (ev : ScrollEvent) (w : World) :
  exists k, domWrites (ionScroll_emit dom ev w)
            = (domWrites w ++ repeat EmitInfinite k)%list.
Proof.
  unfold ionScroll_emit. generalize (ionScroll w) as l. intros l. revert w.
  induction l as [ | h l IH]; intros w; simpl.
  - exists 0%nat. simpl. now rewrite List.app_nil_r.
  - destruct (onScroll_queue_grows dom ev w) as [k1 E1].
    destruct (IH (snd (_onScroll dom ev w))) as [k2 E2].
    exists (k1 + k2)%nat.
    now rewrite E2, E1, <- List.app_assoc, List.repeat_app.
Qed.

(** X12: scrolling alone never emits and never changes the state.
    Over any history made of scroll events only, the state, the
    subscription, the threshold and the number of emissions are what
    they were; all that happens is that [_lastCheck] moves and
    callbacks are appended to the write queue, behind the ones that
    were already pending. *)
Theorem scrolling_only_schedules (ops : list Op) (w : World) :
  forallb is_scroll ops = true ->
  same_setup w (run ops w)
  /\ exists k, domWrites (run ops w)
               = (domWrites w ++ repeat EmitInfinite k)%list.
Proof.
  unfold run. revert w.
  induction ops as [ | o ops IH]; intros w Hops; simpl in *.
  - split; [ apply same_setup_refl | ].
    exists 0%nat. simpl. now rewrite List.app_nil_r.
  - apply andb_true_iff in Hops. destruct Hops as [Ho Hops].
    destruct o as [ | | | | | dom ev | ]; try discriminate Ho. simpl.
    destruct (IH (ionScroll_emit dom ev w) Hops) as [Hsame [k2 E2]].
    destruct (emit_queue_grows dom ev w) as [k1 E1].
    split.
    + eapply same_setup_trans; [ apply emit_same_setup | exact Hsame ].
    + exists (k1 + k2)%nat.
      now rewrite E2, E1, <- List.app_assoc, List.repeat_app.
Qed.

Lemma scrolling_only_schedules_witness :
  let w := run [OpScroll (sample 50 1000 1199 0) (at_ms 100);
                OpScroll (sample 50 1000 1199 0) (at_ms 200)] mounted in
  ionInfinite w = 0%nat /\ state (self w) = STATE_ENABLED.
Proof.
  pose proof (proj1 (scrolling_only_schedules
                [OpScroll (sample 50 1000 1199 0) (at_ms 100);
                 OpScroll (sample 50 1000 1199 0) (at_ms 200)]
                mounted eq_refl)) as H.
  split; [ exact (proj1 (proj2 (proj2 H))) | exact (proj1 (proj2 (proj2 (proj2 H)))) ].
Defined.

(** ** Thresholds written as digits and a unit *)

Lemma take_digits_app (ds u : string) :
  all_digits ds = true ->
  stops_number u = true ->
  take_digits (ds ++ u) = (fst (take_digits ds), u).
Proof.
  intros Hds Hu. induction ds as [ | c ds IH]; simpl in *.
  - destruct u as [ | c r]; [ reflexivity | ].
    simpl in *. destruct (digit_of c); [ discriminate Hu | reflexivity ].
  - destruct (digit_of c); [ | discriminate Hds ].
    rewrite (IH Hds). now destruct (take_digits ds).
Qed.

Lemma digit_not_special (c : ascii) (d : Z) :
  digit_of c = Some d ->
  is_white c = false
  /\ c <> "-"%char /\ c <> "+"%char /\ c <> "I"%char.
Proof.
  destruct c as [[] [] [] [] [] [] [] []]; intros H;
    try discriminate H; repeat split; discriminate.
Qed.

Lemma no_dot_branch {A : Type} (u : string) (f : string -> A) (b : A) :
  stops_number u = true ->
  match u with
  | String "."%char r => f r
  | _ => b
  end = b.
Proof.
  destruct u as [ | c r]; [ reflexivity | ].
  destruct c as [[] [] [] [] [] [] [] []]; intros H;
    solve [ reflexivity | discriminate H ].
Qed.

Lemma no_exponent (u : string) : stops_number u = true -> take_exponent u = 0.
Proof.
  destruct u as [ | c r]; [ reflexivity | ].
  destruct c as [[] [] [] [] [] [] [] []]; intros H;
    solve [ reflexivity | discriminate H ].
Qed.

Lemma fin_integer (m : Z) :
  fin (inject_Z m * Qpower (10 # 1) 0) = fin (inject_Z m).
Proof. apply fin_proper. simpl. ring. Qed.

Lemma parseFloat_digits (c : ascii) (ds u : string) :
  all_digits (String c ds) = true ->
  stops_number u = true ->
  parseFloat (String c ds ++ u)
  = fin (inject_Z (digits_number (String c ds))).
Proof.
  intros Hds Hu.
  pose proof (take_digits_app (String c ds) u Hds Hu) as Htd.
  simpl in Hds. destruct (digit_of c) as [d | ] eqn:Hc; [ | discriminate Hds ].
  destruct (digit_not_special c d Hc) as (Hw & Hm & Hp & HI).
  unfold parseFloat. cbn [append trimStart]. rewrite Hw.
  assert (Hsign : take_sign (String c (ds ++ u)) = (false, String c (ds ++ u))).
  { destruct c as [[] [] [] [] [] [] [] []]; try reflexivity;
      solve [ now elim Hm | now elim Hp ]. }
  rewrite Hsign.
  assert (Hinf : String.prefix "Infinity" (String c (ds ++ u)) = false).
  { destruct c as [[] [] [] [] [] [] [] []]; try reflexivity; now elim HI. }
  unfold unsigned_literal. rewrite Hinf.
  change (String c (ds ++ u)) with (String c ds ++ u)%string.
  rewrite Htd. rewrite (no_dot_branch u _ _ Hu).
  unfold digits_number.
  destruct (fst (take_digits (String c ds))) as [ | d0 l] eqn:Hip.
  - simpl in Hip. rewrite Hc in Hip. destruct (take_digits ds); discriminate Hip.
  - rewrite (no_exponent u Hu). unfold decimal_value.
    rewrite List.app_nil_r. simpl List.length. simpl Z.of_nat.
    change (0 - 0) with 0. apply fin_integer.
Qed.

(** X13: a threshold written as decimal digits followed by a unit is
    read by its digits alone.  When what follows the digits starts
    with neither a digit, a dot nor an exponent mark, the parsed
    number is the binary64 value nearest to the integer the digits
    write, which is that integer itself when it is below [2 ^ 53];
    without a percent sign anywhere that number is the pixel distance
    and the fraction is 0, whatever the unit says, and with a percent
    sign somewhere it is the percentage: the fraction is the number
    over 100 and the pixel distance 0. *)
Theorem digits_then_unit (c : ascii) (ds u : string) (w : World) :
  all_digits (String c ds) = true ->
  stops_number u = true ->
  let val := (String c ds ++ u)%string in
  let n := digits_number (String c ds) in
  parseFloat val = fin (inject_Z n)
  /\ ((- 2 ^ 53 < n < 2 ^ 53)%Z -> parseFloat val = of_Z n)
  /\ ((indexOf val "%" >? -1)%Z = false ->
      _thrPx (self (set_threshold val w)) = fin (inject_Z n)
      /\ _thrPc (self (set_threshold val w)) = of_Z 0)
  /\ ((indexOf val "%" >? -1)%Z = true ->
      _thrPx (self (set_threshold val w)) = of_Z 0
      /\ _thrPc (self (set_threshold val w))
         = (fin (inject_Z n) / of_Z 100)%js).
Proof.
  intros Hds Hu val n.
  pose proof (parseFloat_digits c ds u Hds Hu) as Hp. fold val n in Hp.
  split; [ exact Hp | split; [ | split ] ].
  - intros Hn. rewrite Hp. now apply fin_integer_exact.
  - intros Hpc. unfold set_threshold. rewrite Hpc. simpl.
    rewrite Hp. now split.
  - intros Hpc. unfold set_threshold. rewrite Hpc. simpl.
    rewrite Hp. now split.
Qed.

Lemma digits_then_unit_witness :
  _thrPx (self (set_threshold "100px" constructor)) = of_Z 100
  /\ _thrPc (self (set_threshold "25 %" constructor)) = fin (25 # 100)
  /\ parseFloat "9007199254740993px" = of_Z 9007199254740992.
Proof.
  split; [ | split ].
  - exact (proj1 (proj1 (proj2 (proj2 (digits_then_unit "1" "00" "px"
                                         constructor eq_refl eq_refl)))
                    eq_refl)).
  - exact (proj2 (proj2 (proj2 (proj2 (digits_then_unit "2" "5" " %"
                                         constructor eq_refl eq_refl)))
                    eq_refl)).
  - exact (proj1 (digits_then_unit "9" "007199254740993" "px" constructor
                    eq_refl eq_refl)).
Defined.

(** ** The modal *)

Section ModalFacts.

Variables App ViewController Result : Type.
Variable isPresent : ModalJs.JsValue -> bool.
Variable ModalCmp : ModalJs.JsValue.
Variable ViewController_new :
  ModalJs.JsValue -> ModalJs.JsObject -> ViewController.
Variable _nav : ViewController -> ModalJs.NavRef.
Variable App_present :
  App -> ModalJs.Modal App ViewController -> ModalJs.JsObject -> Z -> Result.

Local Abbreviation new_Modal :=
  (ModalJs.constructor App ViewController isPresent ModalCmp ViewController_new).
Local Abbreviation create :=
  (ModalJs.create App ViewController isPresent ModalCmp ViewController_new).
Local Abbreviation getTransitionName :=
  (ModalJs.getTransitionName App ViewController _nav).
Local Abbreviation present :=
  (ModalJs.present App ViewController Result App_present).
Local Abbreviation given o :=
  (match o with Some x => x | None => ModalJs.empty end).

Lemma set_same (k : string) (v : ModalJs.JsValue) (o : ModalJs.JsObject) :
  ModalJs.set k v o k = v.
Proof. unfold ModalJs.set. now rewrite String.eqb_refl. Qed.

Lemma set_other (k k' : string) (v : ModalJs.JsValue) (o : ModalJs.JsObject) :
  k' <> k -> ModalJs.set k v o k' = o k'.
Proof.
  intros H. unfold ModalJs.set.
  destruct (String.eqb_spec k' k); [ contradiction | reflexivity ].
Qed.

Lemma constructor_options
      (app : App) (component : ModalJs.JsValue)
      (data opts : option ModalJs.JsObject) (k : string) :
  snd (new_Modal app component data opts) k
  = if String.eqb k "enableBackdropDismiss"
    then ModalJs.flag isPresent (given opts "enableBackdropDismiss")
    else if String.eqb k "showBackdrop"
         then ModalJs.flag isPresent (given opts "showBackdrop")
         else given opts k.
Proof. reflexivity. Qed.

(** X14: the two backdrop options of a modal are always booleans once
    it is constructed.  Provided [isPresent] rejects [undefined] and
    accepts booleans, an option that was left out is [true], one given
    as a boolean keeps its value, every other option is left as it
    was, and constructing a second modal from the same options object
    changes nothing in it. *)
Theorem modal_backdrop_flags
        (app : App) (component : ModalJs.JsValue)
        (data opts : option ModalJs.JsObject) :
  isPresent ModalJs.Undefined = false ->
  (forall b, isPresent (ModalJs.Bool b) = true) ->
  let opts' := snd (new_Modal app component data opts) in
  (forall k,
      k = "showBackdrop" \/ k = "enableBackdropDismiss" ->
      (exists b, opts' k = ModalJs.Bool b)
      /\ (given opts k = ModalJs.Undefined -> opts' k = ModalJs.Bool true)
      /\ (forall b, given opts k = ModalJs.Bool b -> opts' k = ModalJs.Bool b))
  /\ (forall k,
         k <> "showBackdrop" -> k <> "enableBackdropDismiss" ->
         opts' k = given opts k)
  /\ (forall app2 component2 data2 k,
         snd (new_Modal app2 component2 data2 (Some opts')) k = opts' k).
Proof.
  intros Hu Hb opts'. split; [ | split ].
  - intros k [-> | ->]; unfold opts'; rewrite constructor_options;
      cbn [String.eqb Ascii.eqb Bool.eqb]; unfold ModalJs.flag;
      (split; [ eexists; reflexivity | split ]).
    + intros ->. now rewrite Hu.
    + intros b ->. now rewrite Hb.
    + intros ->. now rewrite Hu.
    + intros b ->. now rewrite Hb.
  - intros k H1 H2. unfold opts'. rewrite constructor_options.
    destruct (String.eqb_spec k "enableBackdropDismiss"); [ contradiction | ].
    destruct (String.eqb_spec k "showBackdrop"); [ contradiction | ].
    reflexivity.
  - intros app2 component2 data2 k.
    rewrite constructor_options. cbv match. unfold opts'.
    rewrite !constructor_options. cbn [String.eqb Ascii.eqb Bool.eqb].
    destruct (String.eqb k "enableBackdropDismiss").
    + unfold ModalJs.flag. now rewrite Hb.
    + destruct (String.eqb k "showBackdrop"); [ | reflexivity ].
      unfold ModalJs.flag. now rewrite Hb.
Qed.

(** X15: a modal made by the controller takes its transition from
    the options it was created with.  Going back it is the leave
    animation of the options, in every other direction the enter
    animation, whenever that option is truthy; an animation left out
    or given as the empty string counts as none, and then the name is
    looked up in the configuration of the nav, under [modalLeave] or
    [modalEnter], or is the missing nav itself when the modal has
    none. *)
Theorem created_modal_transition
        (ctrl : ModalJs.ModalController App) (component : ModalJs.JsValue)
        (data opts : option ModalJs.JsObject) (direction : ModalJs.JsValue) :
  let m := fst (fst (create ctrl component data opts)) in
  let option_key :=
    if ModalJs.is_back direction then "leaveAnimation" else "enterAnimation" in
  let config_key :=
    if ModalJs.is_back direction then "modalLeave" else "modalEnter" in
  getTransitionName m direction
  = (if ModalJs.toBoolean (given opts option_key)
     then given opts option_key
     else ModalJs.and_config_get (_nav (ModalJs.super _ _ m)) config_key)
  /\ (given opts option_key = ModalJs.Str "" \/
      given opts option_key = ModalJs.Undefined ->
      getTransitionName m direction
      = ModalJs.and_config_get (_nav (ModalJs.super _ _ m)) config_key)
  /\ (ModalJs.toBoolean (given opts option_key) = false ->
      _nav (ModalJs.super _ _ m) = ModalJs.NavUndefined ->
      getTransitionName m direction = ModalJs.Undefined).
Proof.
  cbv zeta.
  assert (E : ModalJs.getTransitionName App ViewController _nav
                (fst (fst (create ctrl component data opts))) direction
              = if ModalJs.toBoolean
                     (given opts (if ModalJs.is_back direction
                                  then "leaveAnimation" else "enterAnimation"))
                then given opts (if ModalJs.is_back direction
                                 then "leaveAnimation" else "enterAnimation")
                else ModalJs.and_config_get
                       (_nav (ModalJs.super _ _
                                (fst (fst (create ctrl component data opts)))))
                       (if ModalJs.is_back direction
                        then "modalLeave" else "modalEnter")).
  { unfold ModalJs.getTransitionName.
    destruct (ModalJs.is_back direction); reflexivity. }
  split; [ exact E | split ].
  - intros [H | H]; rewrite E, H; reflexivity.
  - intros Hf Hn. rewrite E, Hf, Hn. reflexivity.
Qed.

(** X16: [present] always hands the app a truthy
    [minClickBlockDuration].  A truthy duration in the options is
    kept; one that is missing, [0], [NaN], [null] or otherwise falsy
    becomes 400; the other options are not touched, the modal is
    presented with type code 1, and presenting again with the same
    options object changes nothing in it. *)
Theorem present_min_click_block
        (m : ModalJs.Modal App ViewController)
        (navOptions : option ModalJs.JsObject) :
  let given_duration := given navOptions "minClickBlockDuration" in
  let navOptions' := snd (present m navOptions) in
  ModalJs.toBoolean (navOptions' "minClickBlockDuration") = true
  /\ (ModalJs.toBoolean given_duration = true ->
      navOptions' "minClickBlockDuration" = given_duration)
  /\ (ModalJs.toBoolean given_duration = false ->
      navOptions' "minClickBlockDuration" = ModalJs.Num (of_Z 400))
  /\ (forall k, k <> "minClickBlockDuration" ->
                navOptions' k = given navOptions k)
  /\ fst (present m navOptions)
     = App_present (ModalJs._app _ _ m) m navOptions' 1
  /\ (forall k, snd (present m (Some navOptions')) k = navOptions' k).
Proof.
  cbv zeta. unfold ModalJs.present. cbn [fst snd].
  set (o := given navOptions).
  assert (Hd : ModalJs.toBoolean
                 (ModalJs.or_else (o "minClickBlockDuration")
                    (ModalJs.Num (of_Z 400))) = true).
  { unfold ModalJs.or_else.
    destruct (ModalJs.toBoolean (o "minClickBlockDuration")) eqn:E;
      [ exact E | reflexivity ]. }
  split; [ | split; [ | split; [ | split; [ | split ] ] ] ].
  - now rewrite set_same.
  - intros H. rewrite set_same. unfold ModalJs.or_else. now rewrite H.
  - intros H. rewrite set_same. unfold ModalJs.or_else. now rewrite H.
  - intros k Hk. now apply set_other.
  - reflexivity.
  - intros k. destruct (String.eqb_spec k "minClickBlockDuration") as [-> | Hk].
    + rewrite !set_same. unfold ModalJs.or_else at 1. now rewrite Hd.
    + now rewrite !set_other by exact Hk.
Qed.

End ModalFacts.

Lemma modal_backdrop_flags_witness :
  let opts := ModalJs.set "showBackdrop" (ModalJs.Bool false) ModalJs.empty in
  let opts' :=
    snd (ModalJs.constructor unit unit ModalJs.neither_undefined_nor_null
           ModalJs.Null (fun _ _ => tt) tt ModalJs.Null None (Some opts)) in
  opts' "showBackdrop" = ModalJs.Bool false
  /\ opts' "enableBackdropDismiss" = ModalJs.Bool true.
Proof.
  pose proof (proj1 (modal_backdrop_flags unit unit
                ModalJs.neither_undefined_nor_null ModalJs.Null
                (fun _ _ => tt) tt ModalJs.Null None
                (Some (ModalJs.set "showBackdrop" (ModalJs.Bool false)
                         ModalJs.empty))
                eq_refl (fun b => eq_refl))) as H.
  split.
  - exact (proj2 (proj2 (H "showBackdrop" (or_introl eq_refl))) false eq_refl).
  - exact (proj1 (proj2 (H "enableBackdropDismiss" (or_intror eq_refl))) eq_refl).
Defined.

(** ** The load cycle *)

(** X17: [complete()] re-arms the trigger.  On a listening instance
    that is loading with nothing pending, after [complete()] the next
    sample that is outside the throttle window, has a height and
    crosses the threshold is scheduled, and the write phase that
    follows emits exactly one more notification and puts the state
    back to loading. *)
Theorem complete_rearms_trigger
        (w : World) (h0 : Subscription) (dom : Dom) (ev : ScrollEvent)
        (h : number) :
  state (self w) = STATE_LOADING ->
  ionScroll w = [h0] ->
  domWrites w = [] ->
  (_lastCheck (self w) + of_Z 32 >? timeStamp ev)%js = false ->
  nativeElement_scrollHeight dom = Some h ->
  truthy h = true ->
  (distanceFromInfinite (self w) h (getContentDimensions dom) <? of_Z 0)%js
  = true ->
  ionScroll_emit dom ev w = w
  /\ let w' := dom_flush_one (ionScroll_emit dom ev (complete w)) in
     ionInfinite w' = S (ionInfinite w)
     /\ state (self w') = STATE_LOADING
     /\ domWrites w' = []
     /\ _lastCheck (self w') = timeStamp ev.
Proof.
  intros Hs Hobs Hq Ht Hh Htr Hd. split.
  - apply emit_fixed. rewrite onScroll_suppressed; [ reflexivity | ].
    apply suppressed_iff. now left.
  - assert (Hp : processed ev (complete w) = true).
    { unfold processed. simpl. now rewrite Ht. }
    assert (E : _onScroll dom ev (complete w)
                = (5, dom_write EmitInfinite
                        (with_self (with_lastCheck (timeStamp ev)) (complete w)))).
    { rewrite onScroll_processed by exact Hp. cbv zeta.
      rewrite Hh, Htr. cbn [negb]. rewrite distance_with_lastCheck.
      change (distanceFromInfinite (self (complete w)) h (getContentDimensions dom))
        with (distanceFromInfinite (self w) h (getContentDimensions dom)).
      now rewrite Hd. }
    rewrite (emit_one_observer dom ev (complete w) h0 Hobs), E.
    unfold dom_flush_one, dom_write. simpl. rewrite Hq. simpl.
    repeat split.
Qed.

Lemma complete_rearms_trigger_witness :
  let w := dom_flush_one
             (ionScroll_emit (sample 50 1000 1199 0) (at_ms 100) mounted) in
  ionInfinite w = 1%nat
  /\ ionInfinite
       (dom_flush_one
          (ionScroll_emit (sample 50 1000 1199 0) (at_ms 132) (complete w)))
     = 2%nat.
Proof.
  split; [ reflexivity | ].
  exact (proj1 (proj2 (complete_rearms_trigger
           (dom_flush_one
              (ionScroll_emit (sample 50 1000 1199 0) (at_ms 100) mounted))
           0%nat (sample 50 1000 1199 0) (at_ms 132) (of_Z 50)
           eq_refl eq_refl eq_refl eq_refl eq_refl eq_refl eq_refl))).
Defined.
